(** * Cricsheet match analysis: the transformation core

    A shallow embedding of [src/data_transformation/transformer.py]
    (class [DataTransformer]) and the properties of its four stages:
    the flattener [_process_match], the imputer [impute_match_fields],
    the sequencer [fill_event_match_number] and the driver
    [get_dataframes].

    Conventions of the embedding.
    - Python's [None] (and a key that is absent from a JSON object and read
      with [.get(key)]) is [None : option _].
    - A JSON object with a fixed schema is a record whose fields are
      options; [d.get(k, default)] is [default dflt (k d)].
    - Strings are byte strings; [str.lower] is modelled on ASCII text.
    - Numbers are integers ([Z]); JSON reals are outside the model.
    - A [DataFrame] built from a list of dicts is the list of its rows, the
      row label being the position (a [RangeIndex]). *)

From Stdlib Require Import ZArith Ascii String List Bool Lia Permutation Sorted.
From stdpp Require Import base tactics option list strings sorting.

Open Scope string_scope.
Open Scope Z_scope.

(* ===================================================================== *)
(** * Python built-ins used by the transformer                            *)
(* ===================================================================== *)

(** [c.lower()] for one ASCII character. *)
Definition lower_ascii (c : ascii) : ascii :=
  let n := nat_of_ascii c in
  if (Nat.leb 65 n && Nat.leb n 90)%bool then ascii_of_nat (n + 32) else c.

(** [s.lower()]. *)
Fixpoint lower (s : string) : string :=
  match s with
  | EmptyString => EmptyString
  | String c s' => String (lower_ascii c) (lower s')
  end.

(** [needle in hay] on strings: [needle] occurs as a contiguous substring. *)
Fixpoint str_in (needle hay : string) : bool :=
  String.prefix needle hay
  || match hay with
     | EmptyString => false
     | String _ hay' => str_in needle hay'
     end.

(** Truth value of an optional string: [None] and [""] are falsy. *)
Definition truthy_str (o : option string) : bool :=
  match o with
  | Some s => negb (String.eqb s "")
  | None => false
  end.

(** [os.path.basename(p)]: what follows the last ["/"]. *)
Fixpoint basename (p : string) : string :=
  match p with
  | EmptyString => EmptyString
  | String c p' =>
      if str_in "/" p' then basename p'
      else if Ascii.eqb c "/" then p' else p
  end.

(** The part of [s] before its last ["."], when there is one. *)
Fixpoint before_last_dot (s : string) : option string :=
  match s with
  | EmptyString => None
  | String c s' =>
      match before_last_dot s' with
      | Some r => Some (String c r)
      | None => if Ascii.eqb c "." then Some EmptyString else None
      end
  end.

Fixpoint all_dots (s : string) : bool :=
  match s with
  | EmptyString => true
  | String c s' => Ascii.eqb c "." && all_dots s'
  end.

(** [os.path.splitext(b)[0]] for a name [b] without separator: the
    extension starts at the last dot, unless only dots precede it. *)
Definition splitext_root (b : string) : string :=
  match before_last_dot b with
  | Some r => if all_dots r then b else r
  | None => b
  end.

(** [os.path.splitext(os.path.basename(file_path))[0]]. *)
Definition match_id_of_path (file_path : string) : string :=
  splitext_root (basename file_path).

(** An insertion-ordered [dict] with string keys. *)
Definition dict (V : Type) : Type := list (string * V).

(** [d[k]] (the first binding of [k]). *)
Fixpoint dict_get {V} (k : string) (d : dict V) : option V :=
  match d with
  | [] => None
  | (k', v) :: d' => if String.eqb k k' then Some v else dict_get k d'
  end.

(** [list(d.keys())]. *)
Definition dict_keys {V} (d : dict V) : list string := map fst d.

(* ===================================================================== *)
(** * The parsed source record (one Cricsheet JSON file)                  *)
(* ===================================================================== *)

(** A JSON value carried through untouched. *)
#[local] Unset Elimination Schemes.
Inductive value : Type :=
| VNone
| VBool (b : bool)
| VInt (z : Z)
| VStr (s : string)
| VList (l : list value)
| VDict (d : list (string * value)).
#[local] Set Elimination Schemes.

(** A cell that holds either a number or a text ([season],
    [event.match_number]). *)
Inductive scalar : Type :=
| SInt (z : Z)
| SStr (s : string).

Record Fielder : Type := { f_name : option string }.

Record Wicket : Type := {
  w_kind : option string;
  w_player_out : option string;
  w_fielders : option (list Fielder)
}.

Record Runs : Type := {
  r_batter : option Z;
  r_extras : option Z;
  r_total : option Z
}.

Record Delivery : Type := {
  d_batter : option string;
  d_bowler : option string;
  d_non_striker : option string;
  d_runs : option Runs;
  d_wickets : option (list Wicket)
}.

Record Over : Type := {
  o_over : option Z;
  o_deliveries : option (list Delivery)
}.

Record Inning : Type := {
  in_team : option string;
  in_overs : option (list Over)
}.

Record Toss : Type := {
  t_winner : option string;
  t_decision : option string
}.

Record Outcome : Type := {
  oc_result : option string;
  oc_winner : option string;
  oc_by : option (dict Z)
}.

Record Event : Type := {
  ev_name : option string;
  ev_match_number : option scalar
}.

Record Info : Type := {
  i_match_type : option string;
  i_season : option scalar;
  i_venue : option string;
  i_city : option string;
  i_dates : option value;
  i_teams : option (list string);
  i_toss : option Toss;
  i_outcome : option Outcome;
  i_event : option Event;
  i_balls_per_over : option value;
  i_match_type_number : option value;
  i_overs : option value;
  i_gender : option value;
  i_officials : option value;
  i_player_of_match : option value;
  i_team_type : option value
}.

Record MatchJson : Type := {
  mj_info : option Info;
  mj_innings : option (list Inning)
}.

(** The empty objects used as [.get] defaults. *)
Definition empty_info : Info :=
  {| i_match_type := None; i_season := None; i_venue := None; i_city := None;
     i_dates := None; i_teams := None; i_toss := None; i_outcome := None;
     i_event := None; i_balls_per_over := None; i_match_type_number := None;
     i_overs := None; i_gender := None; i_officials := None;
     i_player_of_match := None; i_team_type := None |}.
Definition empty_toss : Toss := {| t_winner := None; t_decision := None |}.
Definition empty_outcome : Outcome :=
  {| oc_result := None; oc_winner := None; oc_by := None |}.
Definition empty_event : Event := {| ev_name := None; ev_match_number := None |}.
Definition empty_runs : Runs :=
  {| r_batter := None; r_extras := None; r_total := None |}.

(* ===================================================================== *)
(** * Output rows                                                         *)
(* ===================================================================== *)

(** The [match_data] dict. *)
Record MatchRecord : Type := {
  match_id : string;
  match_type : string;
  season : option scalar;
  venue : option string;
  city : option string;
  dates : value;
  teams : list string;
  toss_winner : option string;
  toss_decision : option string;
  outcome_result : option string;
  outcome_winner : option string;
  outcome_type : option string;
  outcome_by : option Z;
  event_name : option string;
  event_match_number : option scalar;
  balls_per_over : value;
  match_type_number : value;
  overs : value;
  gender : value;
  officials : value;
  player_of_match : value;
  team_type : value
}.

(** The three keys a [delivery_record] carries only after a dismissal. *)
Record WicketFields : Type := {
  wicket_kind : option string;
  wicket_player_out : option string;
  wicket_fielders : list string
}.

(** The [delivery_record] dict. *)
Record DeliveryRecord : Type := {
  dr_match_id : string;
  dr_innings : nat;
  dr_batting_team : option string;
  dr_over : option Z;
  dr_delivery_in_over : nat;
  dr_batter : option string;
  dr_bowler : option string;
  dr_non_striker : option string;
  dr_runs_batter : option Z;
  dr_runs_extras : option Z;
  dr_runs_total : option Z;
  dr_wicket : option WicketFields
}.

(* ===================================================================== *)
(** * The flattener: [DataTransformer._process_match]                     *)
(* ===================================================================== *)

(** The four lists of [self]. *)
Record DataTransformer : Type := {
  tests : list MatchRecord;
  odis : list MatchRecord;
  t20s : list MatchRecord;
  deliveries : list DeliveryRecord
}.

(** [DataTransformer.__init__]. *)
Definition init : DataTransformer :=
  {| tests := []; odis := []; t20s := []; deliveries := [] |}.

(** Lines 77-83: the outcome margin. *)
Definition outcome_margin (info : Info) : option string * option Z :=
  let outcome_by_dict := default [] (oc_by (default empty_outcome (i_outcome info))) in
  match dict_keys outcome_by_dict with
  | outcome_type :: _ => (Some outcome_type, dict_get outcome_type outcome_by_dict)
  | [] => (None, None)
  end.

(** Lines 85-108. *)
Definition make_match_data (info : Info) (mid mtype : string) : MatchRecord :=
  let '(otype, oby) := outcome_margin info in
  {| match_id := mid;
     match_type := mtype;
     season := i_season info;
     venue := i_venue info;
     city := i_city info;
     dates := default (VList []) (i_dates info);
     teams := default [] (i_teams info);
     toss_winner := t_winner (default empty_toss (i_toss info));
     toss_decision := t_decision (default empty_toss (i_toss info));
     outcome_result := oc_result (default empty_outcome (i_outcome info));
     outcome_winner := oc_winner (default empty_outcome (i_outcome info));
     outcome_type := otype;
     outcome_by := oby;
     event_name := ev_name (default empty_event (i_event info));
     event_match_number := ev_match_number (default empty_event (i_event info));
     balls_per_over := default VNone (i_balls_per_over info);
     match_type_number := default VNone (i_match_type_number info);
     overs := default VNone (i_overs info);
     gender := default VNone (i_gender info);
     officials := default VNone (i_officials info);
     player_of_match := default VNone (i_player_of_match info);
     team_type := default VNone (i_team_type info) |}.

(** Lines 110-117: the [if]/[elif] chain over the three lists. *)
Definition categorize (md : MatchRecord) (self : DataTransformer) : DataTransformer :=
  if str_in "test" (match_type md) then
    {| tests := tests self ++ [md]; odis := odis self; t20s := t20s self;
       deliveries := deliveries self |}
  else if str_in "odi" (match_type md) then
    {| tests := tests self; odis := odis self ++ [md]; t20s := t20s self;
       deliveries := deliveries self |}
  else if str_in "t20" (match_type md) then
    {| tests := tests self; odis := odis self; t20s := t20s self ++ [md];
       deliveries := deliveries self |}
  else self.

(** Lines 146-147: the names of the fielders whose name is truthy. *)
Definition fielder_names (fs : list Fielder) : list string :=
  omap (fun f => if truthy_str (f_name f) then f_name f else None) fs.

(** Lines 142-149, for the wicket [wickets[-1]]. *)
Definition wicket_fields (first_wicket : Wicket) : WicketFields :=
  {| wicket_kind := w_kind first_wicket;
     wicket_player_out := w_player_out first_wicket;
     wicket_fielders :=
       match w_fielders first_wicket with
       | Some ((_ :: _) as fs) => fielder_names fs
       | _ => []
       end |}.

(** Lines 125-149: one [delivery_record]. *)
Definition make_delivery_record (mid : string) (inning_index : nat)
    (batting_team : option string) (over_num : option Z)
    (delivery_index : nat) (delivery : Delivery) : DeliveryRecord :=
  let runs := default empty_runs (d_runs delivery) in
  let wickets := default [] (d_wickets delivery) in
  {| dr_match_id := mid;
     dr_innings := inning_index;
     dr_batting_team := batting_team;
     dr_over := over_num;
     dr_delivery_in_over := delivery_index;
     dr_batter := d_batter delivery;
     dr_bowler := d_bowler delivery;
     dr_non_striker := d_non_striker delivery;
     dr_runs_batter := r_batter runs;
     dr_runs_extras := r_extras runs;
     dr_runs_total := r_total runs;
     dr_wicket := wicket_fields <$> last wickets |}.

(** Lines 122-151: the records of one over, in source order. *)
Definition over_records (mid : string) (inning_index : nat)
    (batting_team : option string) (over : Over) : list DeliveryRecord :=
  imap (fun k delivery =>
          make_delivery_record mid inning_index batting_team (o_over over) (S k) delivery)
       (default [] (o_deliveries over)).

(** Lines 120-151: the records of one innings. *)
Definition inning_records (mid : string) (inning_index : nat) (inning : Inning)
    : list DeliveryRecord :=
  concat (map (over_records mid inning_index (in_team inning))
              (default [] (in_overs inning))).

(** Lines 119-151: all the records of the match. *)
Definition match_deliveries (mid : string) (innings : list Inning) : list DeliveryRecord :=
  concat (imap (fun i inning => inning_records mid (S i) inning) innings).

(** [_process_match(self, match_json, file_path)]. *)
Definition _process_match (match_json : MatchJson) (file_path : string)
    (self : DataTransformer) : DataTransformer :=
  let info := default empty_info (mj_info match_json) in
  let mid := match_id_of_path file_path in
  let mtype := lower (default "" (i_match_type info)) in
  let match_data := make_match_data info mid mtype in
  let self1 := categorize match_data self in
  let innings := default [] (mj_innings match_json) in
  {| tests := tests self1; odis := odis self1; t20s := t20s self1;
     deliveries := deliveries self1 ++ match_deliveries mid innings |}.

(** [process_files]: every file that parses goes through [_process_match];
    a file that does not parse ([None]) is logged and skipped. *)
Definition process_files (files : list (string * option MatchJson))
    (self : DataTransformer) : DataTransformer :=
  fold_left (fun st '(file_path, parsed) =>
               match parsed with
               | Some match_json => _process_match match_json file_path st
               | None => st
               end) files self.

(* ===================================================================== *)
(** * pandas: cells, columns and frames                                   *)
(* ===================================================================== *)

(** A frame with a default [RangeIndex]: the row label is the position. *)
Abbreviation Frame := (list MatchRecord).

(** A frame with explicit row labels (what [groupby(...).apply] returns). *)
Abbreviation IFrame := (list (nat * MatchRecord)).

(** [pd.isna(x)] and [pd.notna(x)] on a cell. *)
Definition isna {A} (x : option A) : bool :=
  match x with None => true | Some _ => false end.
Definition notna {A} (x : option A) : bool := negb (isna x).

(** One element of [column == y] for a scalar [y]: a null on either side
    compares unequal. *)
Definition pd_eq (x y : option string) : bool :=
  match x, y with
  | Some a, Some b => String.eqb a b
  | _, _ => false
  end.

(** One element of [column != y] for a scalar [y]: a null on either side
    compares different. *)
Definition pd_ne (x y : option string) : bool :=
  match x, y with
  | Some a, Some b => negb (String.eqb a b)
  | _, _ => true
  end.

(** Python's [x == ""] on a cell. *)
Definition is_empty_str (x : option string) : bool :=
  match x with Some s => String.eqb s "" | None => false end.

(** Python's [x in ["", None]]. *)
Definition in_empty_or_none (x : option string) : bool :=
  match x with Some s => String.eqb s "" | None => true end.

(** [df.at[idx, column] = v], the column being given by its setter. *)
Definition set_city (v : option string) (r : MatchRecord) : MatchRecord :=
  {| match_id := match_id r; match_type := match_type r; season := season r;
     venue := venue r; city := v; dates := dates r; teams := teams r;
     toss_winner := toss_winner r; toss_decision := toss_decision r;
     outcome_result := outcome_result r; outcome_winner := outcome_winner r;
     outcome_type := outcome_type r; outcome_by := outcome_by r;
     event_name := event_name r; event_match_number := event_match_number r;
     balls_per_over := balls_per_over r; match_type_number := match_type_number r;
     overs := overs r; gender := gender r; officials := officials r;
     player_of_match := player_of_match r; team_type := team_type r |}.

Definition set_outcome_result (v : option string) (r : MatchRecord) : MatchRecord :=
  {| match_id := match_id r; match_type := match_type r; season := season r;
     venue := venue r; city := city r; dates := dates r; teams := teams r;
     toss_winner := toss_winner r; toss_decision := toss_decision r;
     outcome_result := v; outcome_winner := outcome_winner r;
     outcome_type := outcome_type r; outcome_by := outcome_by r;
     event_name := event_name r; event_match_number := event_match_number r;
     balls_per_over := balls_per_over r; match_type_number := match_type_number r;
     overs := overs r; gender := gender r; officials := officials r;
     player_of_match := player_of_match r; team_type := team_type r |}.

Definition set_event_name (v : option string) (r : MatchRecord) : MatchRecord :=
  {| match_id := match_id r; match_type := match_type r; season := season r;
     venue := venue r; city := city r; dates := dates r; teams := teams r;
     toss_winner := toss_winner r; toss_decision := toss_decision r;
     outcome_result := outcome_result r; outcome_winner := outcome_winner r;
     outcome_type := outcome_type r; outcome_by := outcome_by r;
     event_name := v; event_match_number := event_match_number r;
     balls_per_over := balls_per_over r; match_type_number := match_type_number r;
     overs := overs r; gender := gender r; officials := officials r;
     player_of_match := player_of_match r; team_type := team_type r |}.

Definition set_event_match_number (v : option scalar) (r : MatchRecord) : MatchRecord :=
  {| match_id := match_id r; match_type := match_type r; season := season r;
     venue := venue r; city := city r; dates := dates r; teams := teams r;
     toss_winner := toss_winner r; toss_decision := toss_decision r;
     outcome_result := outcome_result r; outcome_winner := outcome_winner r;
     outcome_type := outcome_type r; outcome_by := outcome_by r;
     event_name := event_name r; event_match_number := v;
     balls_per_over := balls_per_over r; match_type_number := match_type_number r;
     overs := overs r; gender := gender r; officials := officials r;
     player_of_match := player_of_match r; team_type := team_type r |}.

(* ===================================================================== *)
(** * The imputer: [DataTransformer.impute_match_fields]                  *)
(* ===================================================================== *)

(** The frames that are alive while [get_dataframes] runs the imputer.
    [df.at[...] = ...] writes into one of them; which one is given by a
    reference, so that a call whose two arguments are the same frame is
    expressible. *)
Inductive ref : Type := DfTests | DfOdis | DfT20s | Combined.

#[global] Instance ref_eq_dec : EqDecision ref.
Proof. solve_decision. Defined.

Record Env : Type := {
  v_tests : Frame;
  v_odis : Frame;
  v_t20s : Frame;
  v_combined : Frame
}.

Definition frame_of (x : ref) (e : Env) : Frame :=
  match x with
  | DfTests => v_tests e
  | DfOdis => v_odis e
  | DfT20s => v_t20s e
  | Combined => v_combined e
  end.

Definition set_frame (x : ref) (f : Frame) (e : Env) : Env :=
  match x with
  | DfTests => {| v_tests := f; v_odis := v_odis e; v_t20s := v_t20s e;
                  v_combined := v_combined e |}
  | DfOdis => {| v_tests := v_tests e; v_odis := f; v_t20s := v_t20s e;
                 v_combined := v_combined e |}
  | DfT20s => {| v_tests := v_tests e; v_odis := v_odis e; v_t20s := f;
                 v_combined := v_combined e |}
  | Combined => {| v_tests := v_tests e; v_odis := v_odis e; v_t20s := v_t20s e;
                   v_combined := f |}
  end.

(** [df.at[idx, column] = v]: the row labelled [idx] of frame [df] gets the
    new cell; the other rows and the other frames are not touched. *)
Definition df_at_set (df : ref) (idx : nat) (setter : MatchRecord → MatchRecord)
    (e : Env) : Env :=
  set_frame df (alter setter idx (frame_of df e)) e.

(** [tuple(sorted(t))]. *)
Definition sorted_teams (t : list string) : list string := merge_sort String.le t.

(** Lines 182-185: the rows of [combined] kept by the city mask. *)
Definition city_subset (combined : Frame) (row : MatchRecord) : Frame :=
  List.filter (fun u => pd_eq (venue u) (venue row)
                        && notna (city u) && pd_ne (city u) (Some ""))
              combined.

(** Lines 195-200: the rows of [combined] kept by the first event mask. *)
Definition event_subset_city (combined : Frame) (row : MatchRecord) : Frame :=
  let teams_key := sorted_teams (teams row) in
  List.filter (fun u => notna (event_name u) && pd_ne (event_name u) (Some "")
                        && bool_decide (sorted_teams (teams u) = teams_key)
                        && (pd_eq (city u) (city row)
                            || ((isna (city row) || is_empty_str (city row))
                                && pd_ne (city u) (Some ""))))
              combined.

(** Lines 204-207: the rows of [combined] kept by the second event mask. *)
Definition event_subset_teams (combined : Frame) (row : MatchRecord) : Frame :=
  let teams_key := sorted_teams (teams row) in
  List.filter (fun u => notna (event_name u) && pd_ne (event_name u) (Some "")
                        && bool_decide (sorted_teams (teams u) = teams_key))
              combined.

(** Lines 181-187. [row] is the copy of the row that [iterrows] yielded. *)
Definition rule_city (df combined : ref) (idx : nat) (row : MatchRecord)
    (e : Env) : Env :=
  if isna (city row) || is_empty_str (city row) then
    match city_subset (frame_of combined e) row with
    | u :: _ => df_at_set df idx (set_city (city u)) e
    | [] => e
    end
  else e.

(** Lines 188-189. *)
Definition rule_outcome (df combined : ref) (idx : nat) (row : MatchRecord)
    (e : Env) : Env :=
  if notna (outcome_type row)
     && (isna (outcome_result row) || in_empty_or_none (outcome_result row))
  then df_at_set df idx (set_outcome_result (Some "win")) e
  else e.

(** Lines 190-209. *)
Definition rule_event (df combined : ref) (idx : nat) (row : MatchRecord)
    (e : Env) : Env :=
  if isna (event_name row) || is_empty_str (event_name row) then
    match event_subset_city (frame_of combined e) row with
    | u :: _ => df_at_set df idx (set_event_name (event_name u)) e
    | [] =>
        match event_subset_teams (frame_of combined e) row with
        | u :: _ => df_at_set df idx (set_event_name (event_name u)) e
        | [] => e
        end
    end
  else e.

(** The body of the loop, lines 181-209. *)
Definition impute_row (df combined : ref) (idx : nat) (row : MatchRecord)
    (e : Env) : Env :=
  rule_event df combined idx row
    (rule_outcome df combined idx row
       (rule_city df combined idx row e)).

(** [impute_match_fields(df, combined)]. [df.iterrows()] takes the rows from
    a consolidated copy of the frame made when the loop starts (the frame
    mixes numeric and object columns), so every [row] holds the cells the
    record had before the loop; the masks read [combined] as it is when
    they are evaluated. *)
Definition impute_match_fields (df combined : ref) (e : Env) : Env :=
  fold_left (fun e' '(idx, row) => impute_row df combined idx row e')
            (imap pair (frame_of df e)) e.

(* ===================================================================== *)
(** * The sequencer: [DataTransformer.fill_event_match_number]            *)
(* ===================================================================== *)

(** [column.replace("", pd.NA)] on one cell. *)
Definition replace_empty (v : option scalar) : option scalar :=
  match v with
  | Some (SStr s) => if String.eqb s "" then None else v
  | _ => v
  end.

(** [pd.to_numeric(column, errors="coerce")] on one cell. What pandas
    reads from a text is the parameter [parse] ([None] for a text that is
    not a number). *)
Definition to_numeric (parse : string → option Z) (v : option scalar) : option Z :=
  match v with
  | None => None
  | Some (SInt z) => Some z
  | Some (SStr s) => parse s
  end.

(** Lines 160-161 on one cell. *)
Definition normalize (parse : string → option Z) (v : option scalar) : option Z :=
  to_numeric parse (replace_empty v).

(** A reading of decimal integer literals, for the examples. *)
Fixpoint parse_digits (acc : Z) (s : string) : option Z :=
  match s with
  | EmptyString => Some acc
  | String c s' =>
      let n := nat_of_ascii c in
      if (Nat.leb 48 n && Nat.leb n 57)%bool
      then parse_digits (10 * acc + Z.of_nat (n - 48)) s'
      else None
  end.

Definition parse_decimal (s : string) : option Z :=
  match s with
  | EmptyString => None
  | String "-" ((String _ _) as s') => Z.opp <$> parse_digits 0 s'
  | _ => parse_digits 0 s
  end.

(** [column.max()]: the largest non-null cell. *)
Fixpoint column_max (col : list (option Z)) : option Z :=
  match col with
  | [] => None
  | None :: t => column_max t
  | Some z :: t =>
      match column_max t with
      | Some m => Some (Z.max z m)
      | None => Some z
      end
  end.

(** [group.loc[missing_mask, c] = range(start, ...)]: the null cells take
    the values of the range, in row order. *)
Fixpoint assign_range (next : Z) (col : list (option Z)) : list (option Z) :=
  match col with
  | [] => []
  | Some z :: t => Some z :: assign_range next t
  | None :: t => Some next :: assign_range (next + 1) t
  end.

(** Lines 162-168 on the normalised column. *)
Definition fill_column (col : list (option Z)) : list (option Z) :=
  if existsb isna col then
    let start := if existsb notna col then default 0 (column_max col) + 1 else 1 in
    assign_range start col
  else col.

(** The order of [sort_values("match_id")]. *)
Definition by_match_id : relation (nat * MatchRecord) :=
  fun a b => String.le (match_id a.2) (match_id b.2).

#[global] Instance by_match_id_dec : RelDecision by_match_id.
Proof. intros a b. unfold by_match_id. apply _. Defined.

(** [fill_group(group)], lines 158-169. Rows with equal [match_id] keep the
    order the merge gives them; for distinct ids the result is the one
    sorted arrangement. *)
Definition fill_group (parse : string → option Z) (group : IFrame) : IFrame :=
  let group := merge_sort by_match_id group in
  let col := map (fun ir => normalize parse (event_match_number ir.2)) group in
  zip_with (fun ir n => (ir.1, set_event_match_number (SInt <$> n) ir.2))
           group (fill_column col).

(** The key of a row for [groupby(["season", "event_name"])]; a row with a
    null in either column belongs to no group. *)
Definition group_key (r : MatchRecord) : option (scalar * string) :=
  match season r, event_name r with
  | Some s, Some n => Some (s, n)
  | _, _ => None
  end.

#[global] Instance scalar_eq_dec : EqDecision scalar.
Proof. solve_decision. Defined.

(** The order in which pandas sorts the group keys: numbers before texts. *)
Definition scalar_le (a b : scalar) : Prop :=
  match a, b with
  | SInt x, SInt y => x ≤ y
  | SInt _, SStr _ => True
  | SStr _, SInt _ => False
  | SStr x, SStr y => String.le x y
  end.

#[global] Instance scalar_le_dec : RelDecision scalar_le.
Proof. intros [x|x] [y|y]; simpl; apply _. Defined.

Definition key_le : relation (scalar * string) :=
  fun a b => if decide (a.1 = b.1) then String.le a.2 b.2 else scalar_le a.1 b.1.

#[global] Instance key_le_dec : RelDecision key_le.
Proof. intros a b. unfold key_le. destruct (decide (a.1 = b.1)); apply _. Defined.

(** The rows that belong to some group, with their labels. *)
Definition grouped_rows (df : Frame) : IFrame :=
  List.filter (fun ir => bool_decide (is_Some (group_key ir.2))) (imap pair df).

(** The groups of [df.groupby(["season", "event_name"])], in key order. *)
Definition groups_of (df : Frame) : list IFrame :=
  let kept := grouped_rows df in
  let keys := merge_sort key_le (remove_dups (omap (fun ir => group_key ir.2) kept)) in
  map (fun k => List.filter (fun ir => bool_decide (group_key ir.2 = Some k)) kept) keys.

(** The row of [rows] labelled [i]. *)
Definition row_at (i : nat) (rows : IFrame) : option (nat * MatchRecord) :=
  find (fun ir => Nat.eqb ir.1 i) rows.

(** [df.groupby(["season", "event_name"], group_keys=False).apply(fill_group)],
    line 171. The pieces are concatenated in key order; when no group
    changed its row order, pandas puts the rows back in the order of [df]. *)
Definition fill_event_match_number (parse : string → option Z) (df : Frame) : IFrame :=
  let groups := groups_of df in
  let results := map (fill_group parse) groups in
  if bool_decide (map (map fst) results = map (map fst) groups)
  then omap (fun ir => row_at ir.1 (concat results)) (grouped_rows df)
  else concat results.

(* ===================================================================== *)
(** * The driver: [DataTransformer.get_dataframes]                        *)
(* ===================================================================== *)

(** Lines 222-236: the frames after the three calls of the imputer. *)
Definition imputed (self : DataTransformer) : Env :=
  let e0 := {| v_tests := tests self; v_odis := odis self; v_t20s := t20s self;
               v_combined := tests self ++ odis self ++ t20s self |} in
  impute_match_fields DfT20s Combined
    (impute_match_fields DfOdis Combined
       (impute_match_fields DfTests Combined e0)).

(** [pd.DataFrame([])] has no column: [groupby(["season", ...])] then
    raises [KeyError]. *)
Definition has_season_column (df : Frame) : bool :=
  match df with [] => false | _ :: _ => true end.

(** [get_dataframes()]; [None] when it raises. *)
Definition get_dataframes (parse : string → option Z) (self : DataTransformer)
    : option (IFrame * IFrame * IFrame * list DeliveryRecord) :=
  let e := imputed self in
  if has_season_column (v_tests e) && has_season_column (v_odis e)
     && has_season_column (v_t20s e)
  then Some (fill_event_match_number parse (v_tests e),
             fill_event_match_number parse (v_odis e),
             fill_event_match_number parse (v_t20s e),
             deliveries self)
  else None.

(* ===================================================================== *)
(** * Vocabulary of the specification                                     *)
(* ===================================================================== *)

(** [needle] occurs in [hay] as a contiguous substring. *)
Definition substring_of (needle hay : string) : Prop :=
  ∃ before after, hay = before +:+ needle +:+ after.

(** The three tiers, and the name looked for in [match_type]. *)
Inductive tier : Type := Test | Odi | T20.

#[global] Instance tier_eq_dec : EqDecision tier.
Proof. solve_decision. Defined.

Definition tier_name (t : tier) : string :=
  match t with Test => "test" | Odi => "odi" | T20 => "t20" end.

(** The priority order of the buckets. *)
Definition tier_priority : list tier := [Test; Odi; T20].

(** The first tier of the priority order whose name occurs in [mt]. *)
Definition first_tier (mt : string) : option tier :=
  List.find (fun t => str_in (tier_name t) mt) tier_priority.

(** The match table of a tier. *)
Definition table (t : tier) (self : DataTransformer) : list MatchRecord :=
  match t with Test => tests self | Odi => odis self | T20 => t20s self end.

(** The [MatchRecord] that the flattener builds for a source record. *)
Definition flattened (match_json : MatchJson) (file_path : string) : MatchRecord :=
  let info := default empty_info (mj_info match_json) in
  make_match_data info (match_id_of_path file_path)
                  (lower (default "" (i_match_type info))).

(** The deliveries of a source record, in source order. *)
Definition source_deliveries (match_json : MatchJson) : list Delivery :=
  concat (map (fun inning =>
                 concat (map (fun over => default [] (o_deliveries over))
                             (default [] (in_overs inning))))
              (default [] (mj_innings match_json))).

(** ** Sample source records *)

Definition info_of_type (mt : string) : Info :=
  {| i_match_type := Some mt; i_season := None; i_venue := None; i_city := None;
     i_dates := None; i_teams := None; i_toss := None; i_outcome := None;
     i_event := None; i_balls_per_over := None; i_match_type_number := None;
     i_overs := None; i_gender := None; i_officials := None;
     i_player_of_match := None; i_team_type := None |}.

Definition ball (batter bowler non_striker : string) (b x t : Z)
    (ws : option (list Wicket)) : Delivery :=
  {| d_batter := Some batter; d_bowler := Some bowler;
     d_non_striker := Some non_striker;
     d_runs := Some {| r_batter := Some b; r_extras := Some x; r_total := Some t |};
     d_wickets := ws |}.

(** A multi-day match (Cricsheet type ["MDM"]) with one over of two balls. *)
Definition mdm_match : MatchJson :=
  {| mj_info := Some (info_of_type "MDM");
     mj_innings :=
       Some [ {| in_team := Some "Surrey";
                 in_overs :=
                   Some [ {| o_over := Some 0;
                             o_deliveries :=
                               Some [ ball "RJ Burns" "JA Porter" "MD Stoneman" 4 0 4 None;
                                      ball "RJ Burns" "JA Porter" "MD Stoneman" 0 0 0 None ]
                          |} ] |} ] |}.



(** A one-day international won by 10 runs. *)
Definition odi_won_by_runs : MatchJson :=
  {| mj_info :=
       Some {| i_match_type := Some "ODI"; i_season := Some (SInt 2019);
               i_venue := Some "Lord's"; i_city := Some "London";
               i_dates := None; i_teams := Some ["England"; "Australia"];
               i_toss := None;
               i_outcome := Some {| oc_result := None; oc_winner := Some "England";
                                    oc_by := Some [("runs", 10)] |};
               i_event := None; i_balls_per_over := Some (VInt 6);
               i_match_type_number := None; i_overs := Some (VInt 50);
               i_gender := Some (VStr "male"); i_officials := None;
               i_player_of_match := None; i_team_type := None |};
     mj_innings := None |}.

(** ** The imputer *)

(** A cell that is null or the empty string. *)
Definition blank (x : option string) : Prop := x = None ∨ x = Some "".

(** [x] is the first element of [l] that satisfies [P]. *)
Definition first_such {A} (P : A → Prop) (l : list A) (x : A) : Prop :=
  ∃ l1 l2, l = (l1 ++ x :: l2)%list ∧ P x ∧ Forall (fun y => ¬ P y) l1.

(** No element of [l] satisfies [P]. *)
Definition none_such {A} (P : A → Prop) (l : list A) : Prop :=
  Forall (fun y => ¬ P y) l.

(** [u] and [row] have the same venue. *)
Definition same_venue (row u : MatchRecord) : Prop :=
  ∃ v, venue row = Some v ∧ venue u = Some v.

(** [u] has a non-empty city. *)
Definition has_city (u : MatchRecord) : Prop :=
  ∃ c, city u = Some c ∧ c ≠ "".

(** [u] is evidence for the city of [row]. *)
Definition city_evidence (row u : MatchRecord) : Prop :=
  same_venue row u ∧ has_city u.

(** [u] has its event name set. *)
Definition named (u : MatchRecord) : Prop :=
  ∃ n, event_name u = Some n ∧ n ≠ "".

(** [u] and [row] have the same teams, in any order. *)
Definition same_teams (row u : MatchRecord) : Prop := teams u ≡ₚ teams row.

(** The city condition of the first event mask, lines 198-199. *)
Definition city_agrees (row u : MatchRecord) : Prop :=
  (∃ c, city row = Some c ∧ city u = Some c)
  ∨ (blank (city row) ∧ city u ≠ Some "").

(** [u] is evidence for the event of [row] in the first pass, and in the
    second. *)
Definition event_evidence_city (row u : MatchRecord) : Prop :=
  named u ∧ same_teams row u ∧ city_agrees row u.
Definition event_evidence_teams (row u : MatchRecord) : Prop :=
  named u ∧ same_teams row u.

(** What each rule writes into the record, given the universe [U] and the
    row as the loop read it. *)
Definition city_update (U : Frame) (row : MatchRecord) : MatchRecord → MatchRecord :=
  if isna (city row) || is_empty_str (city row) then
    match city_subset U row with
    | u :: _ => set_city (city u)
    | [] => id
    end
  else id.

Definition outcome_update (row : MatchRecord) : MatchRecord → MatchRecord :=
  if notna (outcome_type row)
     && (isna (outcome_result row) || in_empty_or_none (outcome_result row))
  then set_outcome_result (Some "win")
  else id.

Definition event_update (U : Frame) (row : MatchRecord) : MatchRecord → MatchRecord :=
  if isna (event_name row) || is_empty_str (event_name row) then
    match event_subset_city U row with
    | u :: _ => set_event_name (event_name u)
    | [] =>
        match event_subset_teams U row with
        | u :: _ => set_event_name (event_name u)
        | [] => id
        end
    end
  else id.

(** The record after the three rules. *)
Definition impute_record (U : Frame) (row : MatchRecord) : MatchRecord :=
  event_update U row (outcome_update row (city_update U row row)).


(** ** Sample rows *)

Definition sample_row (mid : string) (s : option scalar) (v c : option string)
    (tm : list string) (ot ores en : option string) (n : option scalar)
    : MatchRecord :=
  {| match_id := mid; match_type := "odi"; season := s; venue := v; city := c;
     dates := VList []; teams := tm; toss_winner := None; toss_decision := None;
     outcome_result := ores; outcome_winner := None; outcome_type := ot;
     outcome_by := None; event_name := en; event_match_number := n;
     balls_per_over := VInt 6; match_type_number := VNone; overs := VInt 50;
     gender := VStr "male"; officials := VNone; player_of_match := VNone;
     team_type := VStr "international" |}.

(** Two matches at the same venue; the second has an empty city. *)
Definition mumbai_known : MatchRecord :=
  sample_row "1001" (Some (SInt 2019)) (Some "Wankhede Stadium") (Some "Mumbai")
             ["India"; "Australia"] None None (Some "Australia in India") None.
Definition mumbai_blank : MatchRecord :=
  sample_row "1002" (Some (SInt 2019)) (Some "Wankhede Stadium") (Some "")
             ["India"; "Australia"] None None (Some "Australia in India") None.
Definition mumbai_env : Env :=
  {| v_tests := []; v_odis := [mumbai_known; mumbai_blank]; v_t20s := [];
     v_combined := [mumbai_known; mumbai_blank] |}.

(** A match without city, venue and event name, and two matches of the
    same teams: the first with an empty city, the second with a city. *)
Definition final_unnamed : MatchRecord :=
  sample_row "2001" (Some (SInt 2018)) None None ["India"; "Pakistan"]
             None None None None.
Definition asia_cup_no_city : MatchRecord :=
  sample_row "2002" (Some (SInt 2018)) None (Some "") ["Pakistan"; "India"]
             None None (Some "Asia Cup") None.
Definition trophy_dubai : MatchRecord :=
  sample_row "2003" (Some (SInt 2018)) None (Some "Dubai") ["India"; "Pakistan"]
             None None (Some "Champions Trophy") None.
Definition asia_env : Env :=
  {| v_tests := []; v_odis := [final_unnamed; asia_cup_no_city; trophy_dubai];
     v_t20s := [];
     v_combined := [final_unnamed; asia_cup_no_city; trophy_dubai] |}.

(** ** The sequencer *)

(** The number of null cells of a column. *)
Fixpoint count_none (col : list (option Z)) : nat :=
  match col with
  | [] => 0
  | None :: t => S (count_none t)
  | Some _ :: t => count_none t
  end.

(** Where the numbering of the null cells starts: one above the largest
    number of the column, or 1 when the column has no number. *)
Definition sequence_start (col : list (option Z)) : Z :=
  match column_max col with
  | Some m => m + 1
  | None => 1
  end.

(** A numeric cell as an [event_match_number] cell. *)
Definition as_int (c : option Z) : option scalar := SInt <$> c.

(** The [event_match_number] column of a frame. *)
Definition numbers_of (rows : IFrame) : list (option scalar) :=
  (fun ir => event_match_number ir.2) <$> rows.

(** A group of three matches of one event whose numbers are null, 2 and
    null in [match_id] order (the rows come in another order). *)
Definition event_row (mid : string) (n : option scalar) : MatchRecord :=
  sample_row mid (Some (SStr "2019/20")) (Some "Eden Park") (Some "Auckland")
             ["New Zealand"; "India"] None None (Some "India in New Zealand") n.

Definition scenario_group : IFrame :=
  [ (0%nat, event_row "1187680" None);
    (1%nat, event_row "1187678" None);
    (2%nat, event_row "1187679" (Some (SInt 2))) ].


(** ** Sample source files *)

Definition source_match (mt : string) (s : Z) (tm : list string)
    (ev : option Event) : MatchJson :=
  {| mj_info :=
       Some {| i_match_type := Some mt; i_season := Some (SInt s);
               i_venue := None; i_city := None; i_dates := None;
               i_teams := Some tm; i_toss := None; i_outcome := None;
               i_event := ev; i_balls_per_over := Some (VInt 6);
               i_match_type_number := None; i_overs := None; i_gender := None;
               i_officials := None; i_player_of_match := None;
               i_team_type := None |};
     mj_innings := None |}.

(** Four files, one of them a Test match without event. *)
Definition sample_files : list (string * option MatchJson) :=
  [ ("data/extracted/tests/1.json",
     Some (source_match "Test" 2019 ["Ireland"; "Afghanistan"] None));
    ("data/extracted/tests/2.json",
     Some (source_match "Test" 2019 ["England"; "Australia"]
             (Some {| ev_name := Some "The Ashes";
                      ev_match_number := Some (SInt 1) |})));
    ("data/extracted/odis/3.json",
     Some (source_match "ODI" 2019 ["India"; "Sri Lanka"]
             (Some {| ev_name := Some "ICC World Cup";
                      ev_match_number := Some (SInt 44) |})));
    ("data/extracted/t20s/4.json",
     Some (source_match "T20" 2019 ["Nepal"; "Oman"]
             (Some {| ev_name := Some "Oman Pentangular";
                      ev_match_number := None |}))) ].

(** ** The batch *)

(** The files that parsed, with their paths, in the order of the batch. *)
Definition parsed_matches (files : list (string * option MatchJson))
    : list (string * MatchJson) :=
  omap (fun pf => (fun match_json => (pf.1, match_json)) <$> pf.2) files.

(** The records of the batch that belong to tier [t], in the order of the
    batch. *)
Definition tier_records (t : tier) (files : list (string * option MatchJson))
    : list MatchRecord :=
  List.filter (fun r => bool_decide (first_tier (match_type r) = Some t))
              ((fun pm => flattened pm.2 pm.1) <$> parsed_matches files).


(** [r'] is [r] up to the four cells that the imputer and the sequencer
    write. *)
Definition same_but_filled_cells (r r' : MatchRecord) : Prop :=
  r' = set_city (city r')
         (set_outcome_result (outcome_result r')
            (set_event_name (event_name r')
               (set_event_match_number (event_match_number r') r))).

(** The three match tables that [get_dataframes] returns. *)
Definition final_table (t : tier)
    (out : IFrame * IFrame * IFrame * list DeliveryRecord) : IFrame :=
  match t with Test => out.1.1.1 | Odi => out.1.1.2 | T20 => out.1.2 end.

(* ===================================================================== *)
(** * Properties of the flattener                                         *)
(* ===================================================================== *)

Lemma append_cons (c : ascii) (s1 s2 : string) :
  String c s1 +:+ s2 = String c (s1 +:+ s2).
Proof. reflexivity. Qed.

Lemma append_empty_l (s : string) : "" +:+ s = s.
Proof. reflexivity. Qed.

Lemma prefix_spec (s1 s2 : string) :
  String.prefix s1 s2 = true ↔ ∃ rest, s2 = s1 +:+ rest.
Proof.
  revert s2. induction s1 as [|a s1 IH]; intros s2.
  - destruct s2; simpl; split; eauto.
  - destruct s2 as [|b s2]; simpl.
    + split; [discriminate | intros [rest H]; rewrite append_cons in H; discriminate].
    + setoid_rewrite append_cons. destruct (ascii_dec a b) as [->|Hne].
      * rewrite IH. split; intros [rest H]; exists rest; congruence.
      * split; [discriminate | intros [rest H]; congruence].
Qed.

(** [str_in] decides the substring relation. *)
Lemma str_in_spec (needle hay : string) :
  str_in needle hay = true ↔ substring_of needle hay.
Proof.
  unfold substring_of. induction hay as [|c hay IH].
  - cbn [str_in]. rewrite orb_false_r, prefix_spec. split.
    + intros [rest H]. exists "", rest. exact H.
    + intros (before & after & H). destruct before; [eauto | discriminate].
  - cbn [str_in]. rewrite orb_true_iff, prefix_spec, IH. split.
    + intros [[rest H] | (before & after & H)].
      * exists "", rest. exact H.
      * exists (String c before), after. rewrite append_cons. congruence.
    + intros (before & after & H). destruct before as [|c' before].
      * left. exists after. exact H.
      * right. exists before, after. rewrite append_cons in H. congruence.
Qed.

(** [first_tier] returns a tier whose name occurs in the text and skips
    only tiers whose name does not. *)
Lemma first_tier_Some (mt : string) (t : tier) :
  first_tier mt = Some t ↔
  substring_of (tier_name t) mt ∧
  ∀ l1 l2, tier_priority = (l1 ++ t :: l2)%list →
           Forall (fun t' => ¬ substring_of (tier_name t') mt) l1.
Proof.
  unfold first_tier, tier_priority. cbn [List.find tier_name].
  pose proof (str_in_spec "test" mt) as H1.
  pose proof (str_in_spec "odi" mt) as H2.
  pose proof (str_in_spec "t20" mt) as H3.
  split.
  - intros Hf.
    assert (Hs : str_in (tier_name t) mt = true).
    { destruct (str_in "test" mt) eqn:E1; [by simplify_eq|].
      destruct (str_in "odi" mt) eqn:E2; [by simplify_eq|].
      destruct (str_in "t20" mt) eqn:E3; [by simplify_eq|]. discriminate. }
    split; [by apply str_in_spec|].
    intros l1 l2 Heq.
    destruct l1 as [|a [|b [|c l1]]]; simplify_eq/=.
    + constructor.
    + destruct (str_in "test" mt) eqn:E1; [discriminate|].
      repeat constructor. rewrite <- H1. congruence.
    + destruct (str_in "test" mt) eqn:E1; [discriminate|].
      destruct (str_in "odi" mt) eqn:E2; [discriminate|].
      repeat constructor; [rewrite <- H1 | rewrite <- H2]; congruence.
    + destruct l1; discriminate.
  - intros [Hs Hall]. apply str_in_spec in Hs.
    destruct t; cbn [tier_name] in Hs.
    + by rewrite Hs.
    + specialize (Hall [Test] [T20] eq_refl).
      pose proof (Forall_inv Hall) as Ha. simpl in Ha. rewrite <- H1 in Ha.
      destruct (str_in "test" mt); [done|]. by rewrite Hs.
    + specialize (Hall [Test; Odi] [] eq_refl).
      pose proof (Forall_inv Hall) as Ha.
      pose proof (Forall_inv (Forall_inv_tail Hall)) as Hb.
      simpl in Ha, Hb. rewrite <- H1 in Ha. rewrite <- H2 in Hb.
      destruct (str_in "test" mt); [done|].
      destruct (str_in "odi" mt); [done|]. by rewrite Hs.
Qed.

Lemma first_tier_None (mt : string) :
  first_tier mt = None ↔ ∀ t, ¬ substring_of (tier_name t) mt.
Proof.
  unfold first_tier, tier_priority. cbn [List.find]. split.
  - intros H t Hs. apply str_in_spec in Hs.
    destruct t; rewrite Hs in H;
      repeat (discriminate || destruct (str_in _ mt) in H).
  - intros H.
    assert (Hf : ∀ t, str_in (tier_name t) mt = false).
    { intros t. apply not_true_iff_false. rewrite str_in_spec. apply H. }
    rewrite !Hf. reflexivity.
Qed.

(** C1. For every parsed source record the flattener appends its
    [MatchRecord] to the table of the first tier, in the order test, odi,
    t20, whose name occurs in the lower-cased [match_type], and to no other
    table; a record whose [match_type] contains none of the three names is
    appended to none of the three match tables. *)
Theorem bucket_is_first_tier (match_json : MatchJson) (file_path : string)
    (self : DataTransformer) :
  let md := flattened match_json file_path in
  let self' := _process_match match_json file_path self in
  match_type md
    = lower (default "" (i_match_type (default empty_info (mj_info match_json)))) ∧
  match first_tier (match_type md) with
  | Some t => table t self' = (table t self ++ [md])%list
              ∧ ∀ t', t' ≠ t → table t' self' = table t' self
  | None => ∀ t', table t' self' = table t' self
  end.
Proof.
  intros md self'. split.
  { unfold md, flattened, make_match_data.
    destruct (outcome_margin _). reflexivity. }
  unfold self', _process_match. fold (flattened match_json file_path). fold md.
  unfold first_tier, tier_priority, categorize. cbn [List.find tier_name].
  destruct (str_in "test" (match_type md)); [|destruct (str_in "odi" (match_type md));
    [|destruct (str_in "t20" (match_type md))]]; cbn.
  - split; [reflexivity|]. intros [] ?; done.
  - split; [reflexivity|]. intros [] ?; done.
  - split; [reflexivity|]. intros [] ?; done.
  - intros []; reflexivity.
Qed.

Lemma bucket_is_first_tier_witness :
  tests (_process_match odi_won_by_runs "data/extracted/odis/225171.json" init) = []
  ∧ odis (_process_match odi_won_by_runs "data/extracted/odis/225171.json" init)
    = [flattened odi_won_by_runs "data/extracted/odis/225171.json"].
Proof.
  destruct (bucket_is_first_tier odi_won_by_runs "data/extracted/odis/225171.json" init)
    as [_ Hb].
  change (first_tier _) with (Some Odi) in Hb. destruct Hb as [Ho Hother].
  split; [|exact Ho]. apply (Hother Test). discriminate.
Defined.

(** The table of tier [t] after one call of the flattener. *)
Lemma process_match_tables (match_json : MatchJson) (file_path : string)
    (self : DataTransformer) (t : tier) :
  table t (_process_match match_json file_path self)
  = if bool_decide (first_tier (match_type (flattened match_json file_path)) = Some t)
    then (table t self ++ [flattened match_json file_path])%list
    else table t self.
Proof.
  unfold _process_match. fold (flattened match_json file_path).
  unfold first_tier, tier_priority, categorize. cbn [List.find tier_name].
  destruct (str_in "test" (match_type (flattened match_json file_path)));
    [|destruct (str_in "odi" (match_type (flattened match_json file_path)));
      [|destruct (str_in "t20" (match_type (flattened match_json file_path)))]];
    destruct t; reflexivity.
Qed.

Lemma flattened_match_id (match_json : MatchJson) (file_path : string) :
  match_id (flattened match_json file_path) = match_id_of_path file_path.
Proof.
  unfold flattened, make_match_data. destruct (outcome_margin _). reflexivity.
Qed.

Lemma Forall_concat_imap {A B} (P : B → Prop) (f : nat → A → list B) (l : list A) :
  (∀ i x, Forall P (f i x)) → Forall P (concat (imap f l)).
Proof.
  revert f. induction l as [|x l IH]; intros f Hf; cbn.
  - constructor.
  - apply Forall_app. split; [apply Hf|]. apply IH. intros i y. apply Hf.
Qed.

Lemma length_concat_imap {A B C} (f : nat → A → list B) (g : A → list C) (l : list A) :
  (∀ i x, length (f i x) = length (g x)) →
  length (concat (imap f l)) = length (concat (map g l)).
Proof.
  revert f. induction l as [|x l IH]; intros f Hf; cbn.
  - reflexivity.
  - rewrite !length_app, Hf. f_equal. apply IH. intros i y. apply Hf.
Qed.

(** The flattener appends the delivery records of the match, whatever its
    tier: one per source delivery, each carrying the match id. *)
Lemma process_match_deliveries (match_json : MatchJson) (file_path : string)
    (self : DataTransformer) :
  let mid := match_id_of_path file_path in
  let recs := match_deliveries mid (default [] (mj_innings match_json)) in
  deliveries (_process_match match_json file_path self)
    = (deliveries self ++ recs)%list
  ∧ Forall (fun d => dr_match_id d = mid) recs
  ∧ length recs = length (source_deliveries match_json).
Proof.
  intros mid recs. split; [|split].
  - unfold _process_match, categorize. cbn.
    repeat (destruct (str_in _ _); [reflexivity|]). reflexivity.
  - unfold recs, match_deliveries. apply Forall_concat_imap. intros i inning.
    unfold inning_records. apply Forall_concat, Forall_fmap, Forall_forall.
    intros over _. unfold over_records. apply Forall_forall. intros d Hd.
    apply elem_of_lookup_imap in Hd as (k & delivery & -> & _). reflexivity.
  - unfold recs, match_deliveries, source_deliveries.
    apply length_concat_imap. intros i inning. unfold inning_records.
    induction (default [] (in_overs inning)) as [|over l IH]; cbn; [reflexivity|].
    rewrite !length_app, IH. f_equal. unfold over_records. apply length_imap.
Qed.

(** C2, as stated, fails: the deliveries of a match whose type names no
    tier are in the deliveries table, under the id of that match. *)
Lemma uncategorized_deliveries_kept :
  first_tier (match_type (flattened mdm_match "data/extracted/1001.json")) = None
  ∧ ∃ d, In d (deliveries (_process_match mdm_match "data/extracted/1001.json" init))
         ∧ dr_match_id d = match_id (flattened mdm_match "data/extracted/1001.json").
Proof.
  split; [reflexivity|]. eexists. split; [left; reflexivity | reflexivity].
Qed.

(** C2, amended. A source record whose lower-cased [match_type] contains
    none of test, odi, t20 is left out of the three match tables; its
    delivery records are appended to the deliveries table all the same, one
    per source delivery and each under the id of the record. *)
Theorem uncategorized_only_in_deliveries (match_json : MatchJson)
    (file_path : string) (self : DataTransformer) :
  first_tier (match_type (flattened match_json file_path)) = None →
  let self' := _process_match match_json file_path self in
  tests self' = tests self ∧ odis self' = odis self ∧ t20s self' = t20s self
  ∧ ∃ recs, deliveries self' = (deliveries self ++ recs)%list
            ∧ Forall (fun d => dr_match_id d
                               = match_id (flattened match_json file_path)) recs
            ∧ length recs = length (source_deliveries match_json).
Proof.
  intros Hnone self'.
  assert (Hb : ∀ t, table t self' = table t self).
  { intros t. unfold self'. rewrite process_match_tables, Hnone. reflexivity. }
  split; [exact (Hb Test)|]. split; [exact (Hb Odi)|]. split; [exact (Hb T20)|].
  destruct (process_match_deliveries match_json file_path self) as (Hd & Hid & Hlen).
  eexists. rewrite flattened_match_id. split; [exact Hd|]. split; assumption.
Qed.

Lemma uncategorized_only_in_deliveries_witness :
  tests (_process_match mdm_match "data/extracted/1001.json" init) = []
  ∧ length (deliveries (_process_match mdm_match "data/extracted/1001.json" init)) = 2%nat.
Proof.
  destruct (uncategorized_only_in_deliveries mdm_match "data/extracted/1001.json" init)
    as (Ht & _ & _ & recs & Hd & _ & Hlen).
  - reflexivity.
  - split; [exact Ht|]. rewrite Hd, length_app, Hlen. reflexivity.
Defined.




(** Every delivery record that the flattener adds is the record of one
    source delivery, numbered from 1 within its innings list and its over. *)
Lemma process_match_record_origin (match_json : MatchJson) (file_path : string)
    (self : DataTransformer) (d : DeliveryRecord) :
  d ∈ match_deliveries (match_id_of_path file_path) (default [] (mj_innings match_json)) →
  ∃ i inning over k delivery,
    default [] (mj_innings match_json) !! i = Some inning
    ∧ over ∈ default [] (in_overs inning)
    ∧ default [] (o_deliveries over) !! k = Some delivery
    ∧ d = make_delivery_record (match_id_of_path file_path) (S i) (in_team inning)
                               (o_over over) (S k) delivery.
Proof.
  unfold match_deliveries. intros Hd.
  apply list_elem_of_In, in_concat in Hd as (recs & Hrecs & Hd).
  apply list_elem_of_In, elem_of_lookup_imap in Hrecs as (i & inning & -> & Hi).
  unfold inning_records in Hd.
  apply in_concat in Hd as (recs & Hrecs & Hd).
  apply list_elem_of_In, list_elem_of_fmap in Hrecs as (over & -> & Hover).
  apply list_elem_of_In in Hd.
  apply elem_of_lookup_imap in Hd as (k & delivery & -> & Hk).
  exists i, inning, over, k, delivery. done.
Qed.

(** C7. If the ["by"] field of the outcome is a non-empty mapping, the
    record's [outcome_type] is the first key of the mapping and
    [outcome_by] the value stored at that key; if the mapping is empty or
    absent, both are null. *)
Theorem outcome_margin_first_entry (match_json : MatchJson) (file_path : string) :
  let info := default empty_info (mj_info match_json) in
  let md := flattened match_json file_path in
  (∀ o k v rest,
      i_outcome info = Some o → oc_by o = Some ((k, v) :: rest) →
      outcome_type md = Some k
      ∧ outcome_by md = dict_get k ((k, v) :: rest)
      ∧ outcome_by md = Some v)
  ∧ (i_outcome info = None
     ∨ (∃ o, i_outcome info = Some o ∧ (oc_by o = None ∨ oc_by o = Some [])) →
     outcome_type md = None ∧ outcome_by md = None).
Proof.
  intros info md. unfold md, flattened. fold info. generalize info. clear. intros info.
  unfold make_match_data, outcome_margin. split.
  - intros o k v rest Ho Hby. rewrite Ho. cbn [default from_option id]. rewrite Hby. cbn.
    rewrite String.eqb_refl. done.
  - intros [Ho | (o & Ho & [Hby | Hby])]; rewrite Ho; cbn [default from_option id]; try rewrite Hby; done.
Qed.

Lemma outcome_margin_first_entry_witness :
  outcome_type (flattened odi_won_by_runs "data/extracted/odis/225171.json") = Some "runs"
  ∧ outcome_by (flattened odi_won_by_runs "data/extracted/odis/225171.json") = Some 10.
Proof.
  destruct (outcome_margin_first_entry odi_won_by_runs "data/extracted/odis/225171.json")
    as [H _].
  destruct (H {| oc_result := None; oc_winner := Some "England";
                 oc_by := Some [("runs", 10)] |} "runs" 10 [] eq_refl eq_refl)
    as (Ht & _ & Hb).
  split; assumption.
Defined.

(* ===================================================================== *)
(** * Properties of the imputer                                           *)
(* ===================================================================== *)

Lemma frame_of_set_frame_eq (x : ref) (f : Frame) (e : Env) :
  frame_of x (set_frame x f e) = f.
Proof. destruct x; reflexivity. Qed.

Lemma frame_of_set_frame_ne (x y : ref) (f : Frame) (e : Env) :
  x ≠ y → frame_of x (set_frame y f e) = frame_of x e.
Proof. destruct x, y; intros H; try reflexivity; contradiction. Qed.

Lemma set_frame_set_frame (x : ref) (f g : Frame) (e : Env) :
  set_frame x f (set_frame x g e) = set_frame x f e.
Proof. destruct x; reflexivity. Qed.

Lemma set_frame_frame_of (x : ref) (e : Env) : set_frame x (frame_of x e) e = e.
Proof. destruct x, e; reflexivity. Qed.

Lemma df_at_set_id (df : ref) (idx : nat) (e : Env) : df_at_set df idx id e = e.
Proof.
  unfold df_at_set. rewrite list_alter_id by done. apply set_frame_frame_of.
Qed.

Lemma df_at_set_compose (df : ref) (idx : nat) (f g : MatchRecord → MatchRecord)
    (e : Env) :
  df_at_set df idx f (df_at_set df idx g e) = df_at_set df idx (f ∘ g) e.
Proof.
  unfold df_at_set.
  rewrite frame_of_set_frame_eq, set_frame_set_frame, list_alter_alter_eq.
  reflexivity.
Qed.

Lemma frame_of_df_at_set_ne (x df : ref) (idx : nat) (f : MatchRecord → MatchRecord)
    (e : Env) :
  x ≠ df → frame_of x (df_at_set df idx f e) = frame_of x e.
Proof. intros H. unfold df_at_set. by apply frame_of_set_frame_ne. Qed.


(** Each rule is one write into the target row. *)
Lemma rule_city_write (df combined : ref) (idx : nat) (row : MatchRecord) (e : Env) :
  rule_city df combined idx row e
  = df_at_set df idx (city_update (frame_of combined e) row) e.
Proof.
  unfold rule_city, city_update.
  destruct (isna (city row) || is_empty_str (city row));
    [destruct (city_subset _ _)|]; try reflexivity; symmetry; apply df_at_set_id.
Qed.

Lemma rule_outcome_write (df combined : ref) (idx : nat) (row : MatchRecord) (e : Env) :
  rule_outcome df combined idx row e = df_at_set df idx (outcome_update row) e.
Proof.
  unfold rule_outcome, outcome_update.
  destruct (notna _ && _); [reflexivity|]. symmetry; apply df_at_set_id.
Qed.

Lemma rule_event_write (df combined : ref) (idx : nat) (row : MatchRecord) (e : Env) :
  rule_event df combined idx row e
  = df_at_set df idx (event_update (frame_of combined e) row) e.
Proof.
  unfold rule_event, event_update.
  destruct (isna (event_name row) || is_empty_str (event_name row));
    [destruct (event_subset_city _ _); [destruct (event_subset_teams _ _)|]|];
    try reflexivity; symmetry; apply df_at_set_id.
Qed.

(** The updates of the three rules commute: they write different cells. *)
Lemma city_outcome_commute (U : Frame) (row r : MatchRecord) :
  city_update U row (outcome_update row r) = outcome_update row (city_update U row r).
Proof.
  unfold city_update, outcome_update.
  repeat match goal with |- context [if ?b then _ else _] => destruct b end;
    try destruct (city_subset U row); reflexivity.
Qed.

Lemma city_event_commute (U : Frame) (row r : MatchRecord) :
  city_update U row (event_update U row r) = event_update U row (city_update U row r).
Proof.
  unfold city_update, event_update.
  repeat match goal with |- context [if ?b then _ else _] => destruct b end;
    try destruct (city_subset U row); try destruct (event_subset_city U row);
    try destruct (event_subset_teams U row); reflexivity.
Qed.

Lemma outcome_event_commute (U : Frame) (row r : MatchRecord) :
  outcome_update row (event_update U row r) = event_update U row (outcome_update row r).
Proof.
  unfold outcome_update, event_update.
  repeat match goal with |- context [if ?b then _ else _] => destruct b end;
    try destruct (event_subset_city U row);
    try destruct (event_subset_teams U row); reflexivity.
Qed.

(** With distinct frames, the body of the loop is one write of the three
    updates, computed from the universe as it was. *)
Lemma impute_row_write (df combined : ref) (idx : nat) (row : MatchRecord) (e : Env) :
  df ≠ combined →
  impute_row df combined idx row e
  = df_at_set df idx
      (fun r => event_update (frame_of combined e) row
                  (outcome_update row (city_update (frame_of combined e) row r))) e.
Proof.
  intros Hne. unfold impute_row.
  rewrite rule_event_write, rule_outcome_write, rule_city_write.
  rewrite !frame_of_df_at_set_ne by done.
  rewrite !df_at_set_compose. reflexivity.
Qed.

(** The rows below position [length done] are still to be visited. *)
Lemma impute_loop (df combined : ref) (e : Env) (done todo : list MatchRecord) :
  df ≠ combined →
  let U := frame_of combined e in
  fold_left (fun e' '(idx, row) => impute_row df combined idx row e')
            (imap (fun i row => (length done + i, row)%nat) todo)
            (set_frame df (done ++ todo) e)
  = set_frame df (done ++ map (fun r => impute_record U r) todo)%list e.
Proof.
  intros Hne U. revert done. induction todo as [|row todo IH]; intros done.
  - reflexivity.
  - rewrite imap_cons. cbn [fold_left].
    rewrite impute_row_write by done.
    rewrite frame_of_set_frame_ne by done. fold U.
    unfold df_at_set. rewrite frame_of_set_frame_eq, set_frame_set_frame.
    rewrite alter_app_r. cbn [alter list_alter].
    specialize (IH (done ++ [impute_record U row])%list).
    rewrite <- !app_assoc in IH. cbn [app] in IH.
    cbn [map]. rewrite <- IH. f_equal.
    apply imap_ext. intros i r _. cbn. f_equal. rewrite length_app. cbn. lia.
Qed.

(** [impute_match_fields] rewrites every row of [df] by the three rules and
    touches nothing else, when [df] and [combined] are distinct frames. *)
Lemma impute_match_fields_rows (df combined : ref) (e : Env) :
  df ≠ combined →
  impute_match_fields df combined e
  = set_frame df (map (fun r => impute_record (frame_of combined e) r) (frame_of df e)) e.
Proof.
  intros Hne. unfold impute_match_fields.
  pose proof (impute_loop df combined e [] (frame_of df e) Hne) as H.
  cbn [app length] in H. rewrite set_frame_frame_of in H. exact H.
Qed.

(** ** Reading the masks *)

Lemma filter_first {A} (p : A → bool) (P : A → Prop) (l : list A) :
  (∀ x, p x = true ↔ P x) →
  match List.filter p l with
  | x :: _ => first_such P l x
  | [] => none_such P l
  end.
Proof.
  intros Hp. induction l as [|a l IH]; cbn.
  - constructor.
  - destruct (p a) eqn:Ha.
    + exists [], l. split; [reflexivity|]. split; [by apply Hp | constructor].
    + assert (Hna : ¬ P a) by (rewrite <- Hp; congruence).
      destruct (List.filter p l) as [|x rest].
      * by constructor.
      * destruct IH as (l1 & l2 & -> & Hx & Hl1).
        exists (a :: l1), l2. split; [reflexivity|]. split; [done | by constructor].
Qed.

Lemma first_such_unique {A} (P : A → Prop) (l : list A) (x y : A) :
  first_such P l x → first_such P l y → x = y.
Proof.
  intros (l1 & l2 & -> & Hx & Hl1) (k1 & k2 & Heq & Hy & Hk1).
  revert k1 Heq Hk1. induction l1 as [|a l1 IH]; intros [|b k1] Heq Hk1;
    simplify_eq/=.
  - reflexivity.
  - apply Forall_cons in Hk1 as [Hb _]. contradiction.
  - apply Forall_cons in Hl1 as [Ha _]. contradiction.
  - apply Forall_cons in Hl1 as [_ Hl1]. apply Forall_cons in Hk1 as [_ Hk1].
    by eapply IH.
Qed.

Lemma first_such_not_none {A} (P : A → Prop) (l : list A) (x : A) :
  first_such P l x → none_such P l → False.
Proof.
  intros (l1 & l2 & -> & Hx & _) Hnone.
  apply Forall_app in Hnone as [_ Hnone]. apply Forall_cons in Hnone as [Hn _].
  contradiction.
Qed.

Lemma first_such_elem {A} (P : A → Prop) (l : list A) (x : A) :
  first_such P l x → x ∈ l ∧ P x.
Proof.
  intros (l1 & l2 & -> & Hx & _). split; [|done].
  apply elem_of_app. right. by left.
Qed.

Lemma blank_spec (x : option string) :
  isna x || is_empty_str x = true ↔ blank x.
Proof.
  unfold blank. destruct x as [s|]; cbn.
  - rewrite String.eqb_eq. split; [intros ->; by right | intros [?|[= ->]]; done].
  - split; [by left | done].
Qed.

Lemma truthy_str_spec (x : option string) :
  notna x && pd_ne x (Some "") = true ↔ ∃ s, x = Some s ∧ s ≠ "".
Proof.
  destruct x as [s|]; cbn.
  - rewrite negb_true_iff, String.eqb_neq. split; [eauto | by intros (? & [= ->] & ?)].
  - split; [done | by intros (? & ? & ?)].
Qed.

Lemma pd_eq_spec (x y : option string) :
  pd_eq x y = true ↔ ∃ s, y = Some s ∧ x = Some s.
Proof.
  destruct x as [a|], y as [b|]; cbn; try (split; [done | by intros (? & ? & ?)]).
  rewrite String.eqb_eq. split; [intros ->; eauto | by intros (? & [= ->] & [= ->])].
Qed.

Lemma pd_ne_empty_spec (x : option string) :
  pd_ne x (Some "") = true ↔ x ≠ Some "".
Proof.
  destruct x as [a|]; cbn; [|done].
  rewrite negb_true_iff, String.eqb_neq. split; congruence.
Qed.

(** Two lists have the same sorted arrangement exactly when they are
    permutations of each other. *)
Lemma sorted_teams_eq (t1 t2 : list string) :
  sorted_teams t1 = sorted_teams t2 ↔ t1 ≡ₚ t2.
Proof.
  unfold sorted_teams. split.
  - intros Heq. rewrite <- (merge_sort_Permutation String.le t1), Heq.
    apply merge_sort_Permutation.
  - intros Hp. apply (Sorted_unique String.le).
    + apply Sorted_merge_sort, _.
    + apply Sorted_merge_sort, _.
    + by rewrite !merge_sort_Permutation.
Qed.

Lemma city_mask_spec (row u : MatchRecord) :
  pd_eq (venue u) (venue row) && notna (city u) && pd_ne (city u) (Some "") = true
  ↔ city_evidence row u.
Proof.
  unfold city_evidence, same_venue, has_city.
  rewrite <- andb_assoc, andb_true_iff, pd_eq_spec, truthy_str_spec. reflexivity.
Qed.

Lemma teams_mask_spec (row u : MatchRecord) :
  notna (event_name u) && pd_ne (event_name u) (Some "")
  && bool_decide (sorted_teams (teams u) = sorted_teams (teams row)) = true
  ↔ event_evidence_teams row u.
Proof.
  unfold event_evidence_teams, named, same_teams.
  rewrite andb_true_iff, truthy_str_spec, bool_decide_eq_true, sorted_teams_eq.
  reflexivity.
Qed.

Lemma event_mask_spec (row u : MatchRecord) :
  notna (event_name u) && pd_ne (event_name u) (Some "")
  && bool_decide (sorted_teams (teams u) = sorted_teams (teams row))
  && (pd_eq (city u) (city row)
      || ((isna (city row) || is_empty_str (city row)) && pd_ne (city u) (Some "")))
  = true
  ↔ event_evidence_city row u.
Proof.
  unfold event_evidence_city, city_agrees.
  rewrite andb_true_iff, teams_mask_spec, orb_true_iff, andb_true_iff,
    pd_eq_spec, blank_spec, pd_ne_empty_spec.
  unfold event_evidence_teams. tauto.
Qed.

(** ** What the updates write *)

Lemma city_update_spec (U : Frame) (row r : MatchRecord) :
  (blank (city row) →
     match city_subset U row with
     | u :: _ => first_such (city_evidence row) U u
                 ∧ city_update U row r = set_city (city u) r
     | [] => none_such (city_evidence row) U ∧ city_update U row r = r
     end)
  ∧ (¬ blank (city row) → city_update U row r = r).
Proof.
  unfold city_update. split.
  - intros Hb. apply blank_spec in Hb. rewrite Hb.
    pose proof (filter_first _ _ U (city_mask_spec row)) as Hf.
    fold (city_subset U row) in Hf. destruct (city_subset U row); done.
  - intros Hb. rewrite <- blank_spec in Hb. apply not_true_is_false in Hb.
    by rewrite Hb.
Qed.


Lemma city_of_impute_record (U : Frame) (row : MatchRecord) :
  city (impute_record U row) = city (city_update U row row).
Proof.
  unfold impute_record, event_update, outcome_update.
  repeat match goal with |- context [if ?b then _ else _] => destruct b end;
    try destruct (event_subset_city U row);
    try destruct (event_subset_teams U row); reflexivity.
Qed.

Lemma event_name_of_impute_record (U : Frame) (row : MatchRecord) :
  event_name (impute_record U row) = event_name (event_update U row row).
Proof.
  unfold impute_record. rewrite <- outcome_event_commute, <- city_event_commute.
  unfold city_update, outcome_update.
  repeat match goal with |- context [if ?b then _ else _] => destruct b end;
    try destruct (city_subset U row); reflexivity.
Qed.

Lemma impute_match_fields_lookup (df combined : ref) (e : Env) (idx : nat)
    (row : MatchRecord) :
  df ≠ combined →
  frame_of df e !! idx = Some row →
  frame_of df (impute_match_fields df combined e) !! idx
  = Some (impute_record (frame_of combined e) row).
Proof.
  intros Hne Hrow. rewrite impute_match_fields_rows by done.
  rewrite frame_of_set_frame_eq.
  change (map ?f ?l) with (f <$> l). by rewrite list_lookup_fmap, Hrow.
Qed.

(** C5. City backfill: for a target record whose city is null or empty,
    the city after imputation is the city of the first record of the
    universe, in its order, that shares the venue and has a non-empty city
    (so it is the city of a record of the universe at that venue); when the
    universe has no such record the city is left as it was. A city that is
    set is never changed. *)
Theorem city_backfill (df combined : ref) (e : Env) (idx : nat) (row : MatchRecord) :
  df ≠ combined →
  frame_of df e !! idx = Some row →
  let U := frame_of combined e in
  ∃ row',
    frame_of df (impute_match_fields df combined e) !! idx = Some row'
    ∧ (blank (city row) →
         (∀ u, first_such (city_evidence row) U u →
               city row' = city u ∧ u ∈ U ∧ same_venue row u ∧ has_city u)
         ∧ (none_such (city_evidence row) U → city row' = city row)
         ∧ ((∃ u, first_such (city_evidence row) U u)
            ∨ none_such (city_evidence row) U))
    ∧ (¬ blank (city row) → city row' = city row).
Proof.
  intros Hne Hrow U. exists (impute_record U row).
  split; [by apply impute_match_fields_lookup|].
  rewrite city_of_impute_record.
  destruct (city_update_spec U row row) as [Hb Hnb].
  split; [|intros Hn; by rewrite Hnb].
  intros Hblank. specialize (Hb Hblank).
  destruct (city_subset U row) as [|x rest].
  - destruct Hb as [Hnone Heq]. rewrite Heq. split; [|split; [done | by right]].
    intros u Hu. destruct (first_such_not_none _ _ _ Hu Hnone).
  - destruct Hb as [Hx Heq]. rewrite Heq. split; [|split; [|by left; exists x]].
    + intros u Hu. rewrite (first_such_unique _ _ _ _ Hu Hx).
      destruct (first_such_elem _ _ _ Hx) as [Hin [Hv Hc]]. done.
    + intros Hnone. destruct (first_such_not_none _ _ _ Hx Hnone).
Qed.

(** The scenario of C5: two records at one venue, one in Mumbai, one with
    an empty city; both are in Mumbai after imputation. *)
Lemma city_backfill_witness :
  city <$> frame_of DfOdis (impute_match_fields DfOdis Combined mumbai_env)
  = [Some "Mumbai"; Some "Mumbai"].
Proof.
  assert (Hne : DfOdis ≠ Combined) by discriminate.
  destruct (city_backfill DfOdis Combined mumbai_env 0 mumbai_known Hne eq_refl)
    as (r0 & H0 & _ & Hset).
  destruct (city_backfill DfOdis Combined mumbai_env 1 mumbai_blank Hne eq_refl)
    as (r1 & H1 & Hblank & _).
  destruct (Hblank (or_intror eq_refl)) as (Hfirst & _ & _).
  destruct (Hfirst mumbai_known) as (Hc1 & _).
  { exists [], [mumbai_blank]. split; [reflexivity|]. split; [|constructor].
    split; [by exists "Wankhede Stadium" | by exists "Mumbai"]. }
  assert (Hc0 : city r0 = Some "Mumbai").
  { apply Hset. intros [H|H]; discriminate H. }
  assert (Hlen : length (frame_of DfOdis (impute_match_fields DfOdis Combined mumbai_env))
                 = 2%nat).
  { rewrite impute_match_fields_rows by done. reflexivity. }
  destruct (frame_of DfOdis (impute_match_fields DfOdis Combined mumbai_env))
    as [|a [|b [|c l]]]; try discriminate Hlen.
  cbn in H0, H1. injection H0 as ->. injection H1 as ->.
  cbn. rewrite Hc0, Hc1. reflexivity.
Defined.




(** The three rules change no cell but [city], [outcome_result] and
    [event_name]. *)
Lemma impute_record_cells (U : Frame) (row : MatchRecord) :
  impute_record U row
  = set_city (city (impute_record U row))
      (set_outcome_result (outcome_result (impute_record U row))
         (set_event_name (event_name (impute_record U row)) row)).
Proof.
  unfold impute_record, event_update, outcome_update, city_update.
  destruct row.
  repeat match goal with |- context [if ?b then _ else _] => destruct b end;
    try destruct (city_subset U _); try destruct (event_subset_city U _);
    try destruct (event_subset_teams U _); reflexivity.
Qed.



(** In [get_dataframes] the universe is still the concatenation of the
    three flattened tables after the three calls of the imputer. *)
Lemma imputed_universe (self : DataTransformer) :
  v_combined (imputed self) = (tests self ++ odis self ++ t20s self)%list.
Proof.
  unfold imputed.
  change (v_combined ?e) with (frame_of Combined e).
  rewrite !impute_match_fields_rows by discriminate. reflexivity.
Qed.



(* ===================================================================== *)
(** * Properties of the sequencer                                         *)
(* ===================================================================== *)

Lemma length_assign_range (next : Z) (col : list (option Z)) :
  length (assign_range next col) = length col.
Proof.
  revert next. induction col as [|[z|] col IH]; intros next; cbn; auto.
Qed.



(** The cells after the assignment: the numbers that were there, and the
    range that starts at [next]. *)
Lemma elem_of_assign_range (next : Z) (col : list (option Z)) (c : option Z) :
  c ∈ assign_range next col ↔
  ∃ z, c = Some z
       ∧ (Some z ∈ col ∨ (next ≤ z < next + Z.of_nat (count_none col))).
Proof.
  revert next. induction col as [|[y|] col IH]; intros next; cbn [assign_range count_none].
  - rewrite elem_of_nil. split; [done|]. intros (z & _ & [H|H]); [by apply elem_of_nil in H | lia].
  - rewrite elem_of_cons, IH. setoid_rewrite elem_of_cons. split.
    + intros [-> | (z & -> & [H|H])]; [exists y | exists z | exists z]; auto.
    + intros (z & -> & [[H|H]|H]); [by left | right; eauto | right; eauto].
  - rewrite elem_of_cons, IH. setoid_rewrite elem_of_cons. split.
    + intros [-> | (z & -> & [H|H])].
      * exists next. split; [done|]. right. lia.
      * exists z. auto.
      * exists z. split; [done|]. right. lia.
    + intros (z & -> & [[H|H]|H]); [done | right; eauto |].
      destruct (decide (z = next)) as [->|]; [by left|].
      right. exists z. split; [done|]. right. lia.
Qed.

Lemma column_max_None (col : list (option Z)) :
  column_max col = None ↔ ∀ z, Some z ∉ col.
Proof.
  induction col as [|[y|] col IH]; cbn.
  - split; [intros _ z H; by apply elem_of_nil in H | done].
  - destruct (column_max col); split; try done; intros H; destruct (H y); by left.
  - rewrite IH. split; intros H z Hz.
    + apply elem_of_cons in Hz as [Hz|Hz]; [done | by apply (H z)].
    + apply (H z). by right.
Qed.

(** [column_max] is a cell of the column and bounds its numbers. *)
Lemma column_max_Some (col : list (option Z)) (m : Z) :
  column_max col = Some m → Some m ∈ col ∧ ∀ z, Some z ∈ col → z ≤ m.
Proof.
  revert m. induction col as [|[y|] col IH]; intros m; cbn; [done| |].
  - destruct (column_max col) as [m'|] eqn:Hmax; intros [= <-].
    + destruct (IH m' eq_refl) as [Hin Hle]. split.
      * destruct (Z.max_spec y m') as [[_ ->] | [_ ->]]; [by right | by left].
      * intros z Hz. apply elem_of_cons in Hz as [[= ->] | Hz]; [lia|].
        specialize (Hle z Hz). lia.
    + split; [by left|]. intros z Hz.
      apply elem_of_cons in Hz as [[= ->] | Hz]; [lia|].
      destruct (proj1 (column_max_None col) Hmax z Hz).
  - intros Hm. destruct (IH m Hm) as [Hin Hle]. split; [by right|].
    intros z Hz. apply elem_of_cons in Hz as [Hz|Hz]; [done | by apply Hle].
Qed.

Lemma existsb_notna (col : list (option Z)) :
  existsb notna col = true ↔ ∃ z, Some z ∈ col.
Proof.
  rewrite existsb_exists. split.
  - intros ([z|] & Hin & Hz); [|done]. exists z. by apply list_elem_of_In.
  - intros (z & Hin). exists (Some z). split; [by apply list_elem_of_In | done].
Qed.

Lemma existsb_isna (col : list (option Z)) :
  existsb isna col = true ↔ None ∈ col.
Proof.
  rewrite existsb_exists. split.
  - intros ([z|] & Hin & Hz); [done|]. by apply list_elem_of_In.
  - intros Hin. exists None. split; [by apply list_elem_of_In | done].
Qed.

Lemma assign_range_full (next : Z) (col : list (option Z)) :
  None ∉ col → assign_range next col = col.
Proof.
  revert next. induction col as [|[y|] col IH]; intros next Hn; cbn.
  - done.
  - f_equal. apply IH. intros H. apply Hn. by right.
  - destruct Hn. by left.
Qed.

(** Lines 162-168 number the null cells from [sequence_start]. *)
Lemma fill_column_assign (col : list (option Z)) :
  fill_column col = assign_range (sequence_start col) col.
Proof.
  unfold fill_column, sequence_start.
  destruct (existsb isna col) eqn:Hna.
  - destruct (existsb notna col) eqn:Hnn.
    + apply existsb_notna in Hnn as [z Hz].
      destruct (column_max col) as [m|] eqn:Hmax; [done|].
      destruct (proj1 (column_max_None col) Hmax z Hz).
    + destruct (column_max col) as [m|] eqn:Hmax; [|done].
      apply column_max_Some in Hmax as [Hin _].
      apply not_true_iff_false in Hnn. destruct Hnn.
      apply existsb_notna. eauto.
  - symmetry. apply assign_range_full. rewrite <- existsb_isna. congruence.
Qed.



#[local] Instance by_match_id_total : Total by_match_id.
Proof. intros a b. unfold by_match_id. apply total, _. Qed.

(** The rows of [fill_group] are the sorted rows with the filled column. *)
Lemma fill_group_lookup (parse : string → option Z) (group : IFrame) (i : nat)
    (ir : nat * MatchRecord) :
  let sorted := merge_sort by_match_id group in
  let old := (fun ir => normalize parse (event_match_number ir.2)) <$> sorted in
  sorted !! i = Some ir →
  ∃ c, fill_column old !! i = Some c
       ∧ fill_group parse group !! i
         = Some (ir.1, set_event_match_number (SInt <$> c) ir.2).
Proof.
  intros sorted old Hi.
  assert (Hlen : (i < length (fill_column old))%nat).
  { rewrite fill_column_assign, length_assign_range. unfold old.
    rewrite length_fmap. by eapply lookup_lt_Some. }
  apply lookup_lt_is_Some_2 in Hlen as [c Hc]. exists c. split; [done|].
  unfold fill_group. fold sorted.
  change (map ?f sorted) with (f <$> sorted). fold old.
  rewrite lookup_zip_with, Hi. cbn. by rewrite Hc.
Qed.

Lemma numbers_of_zip (rows : IFrame) (col : list (option Z)) :
  length rows = length col →
  numbers_of (zip_with (fun ir n => (ir.1, set_event_match_number (SInt <$> n) ir.2))
                       rows col)
  = as_int <$> col.
Proof.
  unfold numbers_of. revert col.
  induction rows as [|ir rows IH]; intros [|c col] Hlen; try done.
  cbn. f_equal. apply IH. by injection Hlen.
Qed.

(** The final column of a group is the filled column of its sorted rows. *)
Lemma numbers_of_fill_group (parse : string → option Z) (group : IFrame) :
  numbers_of (fill_group parse group)
  = as_int <$> assign_range
      (sequence_start ((fun ir => normalize parse (event_match_number ir.2))
                         <$> merge_sort by_match_id group))
      ((fun ir => normalize parse (event_match_number ir.2))
         <$> merge_sort by_match_id group).
Proof.
  unfold fill_group. change (map ?f ?l) with (f <$> l).
  rewrite fill_column_assign. apply numbers_of_zip.
  by rewrite length_assign_range, length_fmap.
Qed.

#[local] Instance as_int_inj : Inj (=) (=) as_int.
Proof. intros [x|] [y|] H; by simplify_eq/=. Qed.


Lemma sequence_start_first (col : list (option Z)) :
  (∀ z, Some z ∉ col) → sequence_start col = 1.
Proof.
  intros Hn. unfold sequence_start.
  by rewrite (proj2 (column_max_None col) Hn).
Qed.




(* ===================================================================== *)
(** * Properties of the driver                                            *)
(* ===================================================================== *)

(** The imputer deletes nothing: each table keeps its rows, changed in the
    three imputed cells at most. *)
Lemma imputed_tables (self : DataTransformer) :
  let U := (tests self ++ odis self ++ t20s self)%list in
  v_tests (imputed self) = impute_record U <$> tests self
  ∧ v_odis (imputed self) = impute_record U <$> odis self
  ∧ v_t20s (imputed self) = impute_record U <$> t20s self.
Proof.
  unfold imputed.
  rewrite !impute_match_fields_rows by discriminate. cbn. done.
Qed.

(** A row of a group after [fill_group] is a row of the group, with a new
    [event_match_number] cell. *)
Lemma elem_of_fill_group (parse : string → option Z) (group : IFrame)
    (x : nat * MatchRecord) :
  x ∈ fill_group parse group →
  ∃ ir n, ir ∈ group ∧ x = (ir.1, set_event_match_number n ir.2).
Proof.
  unfold fill_group. intros Hx.
  apply elem_of_zip_with in Hx as (ir & c & -> & Hir & _).
  exists ir, (SInt <$> c). split; [|done].
  by rewrite merge_sort_Permutation in Hir.
Qed.

Lemma elem_of_grouped_rows (df : Frame) (ir : nat * MatchRecord) :
  ir ∈ grouped_rows df ↔ df !! ir.1 = Some ir.2 ∧ is_Some (group_key ir.2).
Proof.
  unfold grouped_rows.
  rewrite list_elem_of_In, filter_In, <- list_elem_of_In, bool_decide_eq_true.
  destruct ir as [i r]. cbn. split.
  - intros [Hin Hk]. split; [|done].
    apply elem_of_lookup_imap in Hin as (j & y & [= -> ->] & Hj). done.
  - intros [Hi Hk]. split; [|done].
    apply elem_of_lookup_imap. exists i, r. done.
Qed.

Lemma elem_of_groups_of (df : Frame) (g : IFrame) (ir : nat * MatchRecord) :
  g ∈ groups_of df → ir ∈ g → ir ∈ grouped_rows df.
Proof.
  unfold groups_of. intros Hg Hir.
  apply list_elem_of_fmap in Hg as (k & -> & _).
  apply list_elem_of_In, filter_In in Hir as [Hir _].
  by apply list_elem_of_In.
Qed.

(** Every row that [fill_event_match_number] returns is a row of [df]
    whose [season] and [event_name] are both set; a row with a null in
    either column is in no group and is not returned. *)
Lemma fill_event_match_number_rows (parse : string → option Z) (df : Frame)
    (i : nat) (r' : MatchRecord) :
  (i, r') ∈ fill_event_match_number parse df →
  ∃ r n, df !! i = Some r ∧ is_Some (season r) ∧ is_Some (event_name r)
         ∧ r' = set_event_match_number n r.
Proof.
  intros Hin.
  assert (Hc : (i, r') ∈ concat (map (fill_group parse) (groups_of df))).
  { unfold fill_event_match_number in Hin. case_bool_decide; [|done].
    apply list_elem_of_omap in Hin as (ir & _ & Hrow).
    unfold row_at in Hrow. apply find_some in Hrow as [Hrow _].
    by apply list_elem_of_In. }
  apply list_elem_of_In, in_concat in Hc as (res & Hres & Hx).
  apply list_elem_of_In, list_elem_of_fmap in Hres as (g & -> & Hg).
  apply list_elem_of_In, elem_of_fill_group in Hx as (ir & n & Hir & [= -> ->]).
  apply (elem_of_groups_of df g ir Hg), elem_of_grouped_rows in Hir as [Hi Hk].
  exists ir.2, n. split; [done|]. unfold group_key in Hk.
  destruct (season ir.2), (event_name ir.2); by destruct Hk as [? [=]].
Qed.

(** For pairwise distinct match ids there is one arrangement of a group
    in ascending [match_id] order: whatever algorithm [sort_values] runs,
    it returns the rows in the order of [merge_sort]. *)
Lemma sort_values_unique (group sorted : IFrame) :
  NoDup ((fun ir => match_id ir.2) <$> group) →
  sorted ≡ₚ group →
  Sorted by_match_id sorted →
  sorted = merge_sort by_match_id group.
Proof.
  intros Hnd Hperm Hsorted.
  assert (Htrans : Transitive by_match_id).
  { intros a b c. unfold by_match_id. apply transitivity. }
  apply (Sorted_unique_strong by_match_id); [|done|apply Sorted_merge_sort, _|].
  - intros x1 x2 H1 H2 H12 H21.
    rewrite Hperm in H1. rewrite merge_sort_Permutation in H2.
    assert (Hid : match_id x1.2 = match_id x2.2).
    { unfold by_match_id in H12, H21. by apply (anti_symm String.le). }
    apply list_elem_of_lookup in H1 as [i Hi]. apply list_elem_of_lookup in H2 as [j Hj].
    assert (i = j); [|congruence].
    apply (NoDup_lookup _ i j (match_id x1.2) Hnd).
    + by rewrite list_lookup_fmap, Hi.
    + by rewrite list_lookup_fmap, Hj, Hid.
  - by rewrite merge_sort_Permutation.
Qed.

(** Every row of a group is a row of the group after [fill_group], with
    a new [event_match_number] cell. *)
Lemma fill_group_keeps (parse : string → option Z) (group : IFrame)
    (ir : nat * MatchRecord) :
  ir ∈ group →
  ∃ n, (ir.1, set_event_match_number n ir.2) ∈ fill_group parse group.
Proof.
  intros Hin. rewrite <- (merge_sort_Permutation by_match_id) in Hin.
  apply list_elem_of_lookup in Hin as [j Hj].
  destruct (fill_group_lookup parse group j ir Hj) as (c & _ & Hout).
  exists (SInt <$> c). apply list_elem_of_lookup. by exists j.
Qed.

Lemma elem_of_filled_groups (parse : string → option Z) (df : Frame)
    (x : nat * MatchRecord) :
  x ∈ concat (map (fill_group parse) (groups_of df)) →
  ∃ r n, df !! x.1 = Some r ∧ is_Some (group_key r)
         ∧ x.2 = set_event_match_number n r.
Proof.
  intros Hc.
  apply list_elem_of_In, in_concat in Hc as (res & Hres & Hx).
  apply list_elem_of_In, list_elem_of_fmap in Hres as (g & -> & Hg).
  apply list_elem_of_In, elem_of_fill_group in Hx as (ir & n & Hir & ->).
  apply (elem_of_groups_of df g ir Hg), elem_of_grouped_rows in Hir as [Hi Hk].
  by exists ir.2, n.
Qed.

(** Conversely, every row of [df] whose [season] and [event_name] are both
    set is returned by [fill_event_match_number], changed in its
    [event_match_number] cell at most. *)
Lemma fill_event_match_number_keeps (parse : string → option Z) (df : Frame)
    (i : nat) (r : MatchRecord) :
  df !! i = Some r →
  is_Some (group_key r) →
  ∃ n, (i, set_event_match_number n r) ∈ fill_event_match_number parse df.
Proof.
  intros Hi [k Hk].
  assert (Hrow : (i, r) ∈ grouped_rows df).
  { apply elem_of_grouped_rows. split; [done | by exists k]. }
  set (g := List.filter (fun ir => bool_decide (group_key ir.2 = Some k))
                        (grouped_rows df)).
  assert (Hg : g ∈ groups_of df).
  { unfold groups_of. apply list_elem_of_fmap. exists k. split; [done|].
    rewrite merge_sort_Permutation, elem_of_remove_dups, list_elem_of_omap.
    by exists (i, r). }
  assert (Hing : (i, r) ∈ g).
  { unfold g. apply list_elem_of_In, filter_In. split.
    - by apply list_elem_of_In.
    - by apply bool_decide_eq_true. }
  destruct (fill_group_keeps parse g (i, r) Hing) as [n Hn]. cbn in Hn.
  assert (Hc : (i, set_event_match_number n r)
               ∈ concat (map (fill_group parse) (groups_of df))).
  { apply list_elem_of_In, in_concat. exists (fill_group parse g). split.
    - apply list_elem_of_In, list_elem_of_fmap. by exists g.
    - by apply list_elem_of_In. }
  unfold fill_event_match_number. case_bool_decide; [|eauto].
  destruct (row_at i (concat (map (fill_group parse) (groups_of df)))) as [y|] eqn:Hy.
  - unfold row_at in Hy.
    pose proof (find_some _ _ Hy) as [Hyin Hlabel].
    apply Nat.eqb_eq in Hlabel.
    apply list_elem_of_In, elem_of_filled_groups in Hyin as (r' & n' & Hi' & _ & Hy2).
    rewrite Hlabel, Hi in Hi'. injection Hi' as <-.
    exists n'. apply list_elem_of_omap. exists (i, r). split; [done|].
    cbn. unfold row_at. rewrite Hy. destruct y as [j y2]. cbn in *. by subst.
  - unfold row_at in Hy.
    apply list_elem_of_In in Hc.
    pose proof (find_none _ _ Hy _ Hc) as Hf. cbn in Hf.
    by rewrite Nat.eqb_refl in Hf.
Qed.

(** C8 fails on the code. Of the two Test matches that the flattener puts
    in the Test table, the one without event (its [event_name] is still
    null after imputation) is missing from the Test table that
    [get_dataframes] returns. *)
Theorem null_event_record_dropped :
  let self := process_files sample_files init in
  match_id <$> tests self = ["1"; "2"]
  ∧ (fun r => (match_id r, event_name r)) <$> v_tests (imputed self)
    = [("1", None); ("2", Some "The Ashes")]
  ∧ ∃ out, get_dataframes parse_decimal self = Some out
           ∧ (fun ir => match_id ir.2) <$> out.1.1.1 = ["2"].
Proof.
  cbv zeta. split; [reflexivity|]. split; [reflexivity|].
  eexists. split; reflexivity.
Qed.

(** When a tier has no match, [get_dataframes] raises instead of returning
    tables. *)
Lemma get_dataframes_empty_tier (parse : string → option Z) (self : DataTransformer) :
  tests self = [] ∨ odis self = [] ∨ t20s self = [] →
  get_dataframes parse self = None.
Proof.
  intros H. unfold get_dataframes.
  destruct (imputed_tables self) as (Ht & Ho & Hw). rewrite Ht, Ho, Hw.
  destruct H as [-> | [-> | ->]]; cbn; [done| |].
  - by rewrite andb_false_r.
  - by rewrite andb_false_r.
Qed.

(* ===================================================================== *)
(** * Further properties of the flattener                                 *)
(* ===================================================================== *)









(** ** The batch *)

Lemma tier_records_cons_parsed (t : tier) (file_path : string) (match_json : MatchJson)
    (files : list (string * option MatchJson)) :
  tier_records t ((file_path, Some match_json) :: files)
  = ((if bool_decide (first_tier (match_type (flattened match_json file_path)) = Some t)
      then [flattened match_json file_path] else []) ++ tier_records t files)%list.
Proof. unfold tier_records. cbn. by destruct (bool_decide _). Qed.

(** The tables after a batch: what they held, then the records of the
    batch that belong to the tier, in the order of the batch. *)
Lemma process_files_table (t : tier) (files : list (string * option MatchJson))
    (self : DataTransformer) :
  table t (process_files files self) = (table t self ++ tier_records t files)%list.
Proof.
  revert self. induction files as [|[file_path [match_json|]] files IH]; intros self.
  - cbn. by rewrite app_nil_r.
  - change (process_files ((file_path, Some match_json) :: files) self)
      with (process_files files (_process_match match_json file_path self)).
    rewrite IH, process_match_tables, tier_records_cons_parsed.
    destruct (bool_decide _); [by rewrite <- app_assoc | done].
  - change (process_files ((file_path, None) :: files) self)
      with (process_files files self).
    by rewrite IH.
Qed.


(** The tables stay sorted by tier: when every record of each table has
    that table's tier as the first tier of its [match_type], this still
    holds after a batch; two records in different tables then never have
    the same [match_type]. *)
Theorem tables_keep_their_tier (files : list (string * option MatchJson))
    (self : DataTransformer) :
  (∀ t, Forall (fun r => first_tier (match_type r) = Some t) (table t self)) →
  (∀ t, Forall (fun r => first_tier (match_type r) = Some t)
               (table t (process_files files self)))
  ∧ ∀ t1 t2 r1 r2,
      r1 ∈ table t1 (process_files files self) →
      r2 ∈ table t2 (process_files files self) →
      match_type r1 = match_type r2 → t1 = t2.
Proof.
  intros Hinv.
  assert (Hall : ∀ t, Forall (fun r => first_tier (match_type r) = Some t)
                             (table t (process_files files self))).
  { intros t. rewrite process_files_table. apply Forall_app. split; [apply Hinv|].
    apply Forall_forall. intros r Hr. unfold tier_records in Hr.
    apply list_elem_of_In, filter_In in Hr as [_ Hr].
    by apply bool_decide_eq_true in Hr. }
  split; [exact Hall|].
  intros t1 t2 r1 r2 H1 H2 Heq.
  pose proof (Hall t1) as Ha. pose proof (Hall t2) as Hb.
  rewrite Forall_forall in Ha, Hb.
  specialize (Ha r1 H1). specialize (Hb r2 H2). congruence.
Qed.

Lemma tables_keep_their_tier_witness :
  Forall (fun r => first_tier (match_type r) = Some Test)
         (tests (process_files sample_files init)).
Proof.
  destruct (tables_keep_their_tier sample_files init) as [H _].
  - intros []; constructor.
  - exact (H Test).
Defined.

(** ** The match id *)

Lemma str_in_char_cons (c a : ascii) (s : string) :
  str_in (String c "") (String a s) = Ascii.eqb c a || str_in (String c "") s.
Proof.
  cbn [str_in String.prefix].
  destruct (ascii_dec c a) as [->|Hne].
  - rewrite Ascii.eqb_refl. by destruct s.
  - apply Ascii.eqb_neq in Hne. by rewrite Hne.
Qed.

Lemma str_in_char_app (c : ascii) (s1 s2 : string) :
  str_in (String c "") (s1 +:+ s2)
  = str_in (String c "") s1 || str_in (String c "") s2.
Proof.
  induction s1 as [|a s1 IH].
  - rewrite append_empty_l. reflexivity.
  - rewrite append_cons, !str_in_char_cons, IH. by rewrite orb_assoc.
Qed.

(** [basename] returns what follows a separator when no separator comes
    after it. *)
Lemma basename_after_sep (dir name : string) :
  str_in "/" name = false → basename (dir +:+ "/" +:+ name) = name.
Proof.
  intros Hname. induction dir as [|a dir IH].
  - rewrite append_empty_l, append_cons, append_empty_l.
    cbn [basename]. by rewrite Hname.
  - rewrite append_cons. cbn [basename].
    rewrite str_in_char_app, append_cons, str_in_char_cons. cbn.
    rewrite orb_true_r. exact IH.
Qed.

Lemma before_last_dot_None (s : string) :
  str_in "." s = false → before_last_dot s = None.
Proof.
  induction s as [|a s IH]; [done|].
  rewrite str_in_char_cons. intros [Ha Hs]%orb_false_elim.
  cbn [before_last_dot]. rewrite (IH Hs).
  rewrite Ascii.eqb_sym in Ha. by rewrite Ha.
Qed.

(** [before_last_dot] splits at a dot that no dot follows. *)
Lemma before_last_dot_ext (name ext : string) :
  str_in "." ext = false → before_last_dot (name +:+ "." +:+ ext) = Some name.
Proof.
  intros Hext. induction name as [|a name IH].
  - rewrite append_empty_l, append_cons, append_empty_l.
    cbn [before_last_dot]. by rewrite (before_last_dot_None _ Hext).
  - rewrite append_cons. cbn [before_last_dot]. by rewrite IH.
Qed.

(** The match id of a file [dir/name.json] is [name], for every name
    without separator that has a character other than a dot; so two files
    of that name in different directories get the same match id. *)
Theorem match_id_of_json_file (dir name : string) :
  str_in "/" name = false →
  all_dots name = false →
  match_id_of_path (dir +:+ "/" +:+ name +:+ ".json") = name.
Proof.
  intros Hsep Hdots. unfold match_id_of_path.
  rewrite basename_after_sep.
  - unfold splitext_root.
    change (name +:+ ".json") with (name +:+ "." +:+ "json").
    rewrite before_last_dot_ext by reflexivity. by rewrite Hdots.
  - rewrite str_in_char_app, Hsep. reflexivity.
Qed.

Lemma match_id_of_json_file_witness :
  match_id_of_path "data/extracted/odis_json/225171.json" = "225171"
  ∧ match_id_of_path "data/extracted/tests_json/225171.json" = "225171".
Proof.
  split.
  - exact (match_id_of_json_file "data/extracted/odis_json" "225171" eq_refl eq_refl).
  - exact (match_id_of_json_file "data/extracted/tests_json" "225171" eq_refl eq_refl).
Defined.

(* ===================================================================== *)
(** * Further properties of the imputer                                   *)
(* ===================================================================== *)

Lemma outcome_result_of_impute_record (U : Frame) (row : MatchRecord) :
  outcome_result (impute_record U row) = outcome_result (outcome_update row row).
Proof.
  unfold impute_record. rewrite <- city_outcome_commute.
  unfold event_update, city_update.
  repeat match goal with |- context [if ?b then _ else _] => destruct b end;
    try destruct (city_subset U row); try destruct (event_subset_city U row);
    try destruct (event_subset_teams U row); reflexivity.
Qed.

(** Outcome-result default: a record with an outcome type and a null or
    empty [outcome_result] has [outcome_result = "win"] after imputation;
    in every other case [outcome_result] is left as it was. *)
Theorem outcome_result_default (df combined : ref) (e : Env) (idx : nat)
    (row : MatchRecord) :
  df ≠ combined →
  frame_of df e !! idx = Some row →
  ∃ row',
    frame_of df (impute_match_fields df combined e) !! idx = Some row'
    ∧ (is_Some (outcome_type row) → blank (outcome_result row) →
       outcome_result row' = Some "win")
    ∧ (outcome_type row = None ∨ ¬ blank (outcome_result row) →
       outcome_result row' = outcome_result row).
Proof.
  intros Hne Hrow. exists (impute_record (frame_of combined e) row).
  split; [by apply impute_match_fields_lookup|].
  rewrite outcome_result_of_impute_record. unfold outcome_update, blank. split.
  - intros [t Ht] Hb. rewrite Ht. cbn.
    destruct Hb as [-> | ->]; reflexivity.
  - intros [Ht | Hnb]; [by rewrite Ht|].
    assert (Hf : isna (outcome_result row) || in_empty_or_none (outcome_result row)
                 = false).
    { destruct (outcome_result row) as [s|]; cbn.
      - apply String.eqb_neq. intros ->. apply Hnb. by right.
      - destruct Hnb. by left. }
    by rewrite Hf, andb_false_r.
Qed.

Lemma outcome_result_default_witness :
  outcome_result
    <$> frame_of DfOdis
          (impute_match_fields DfOdis Combined
             {| v_tests := [];
                v_odis := [flattened odi_won_by_runs "data/extracted/odis/225171.json"];
                v_t20s := [];
                v_combined := [flattened odi_won_by_runs
                                 "data/extracted/odis/225171.json"] |}) !! 0%nat
  = Some (Some "win").
Proof.
  assert (Hne : DfOdis ≠ Combined) by discriminate.
  destruct (outcome_result_default DfOdis Combined
              {| v_tests := [];
                 v_odis := [flattened odi_won_by_runs "data/extracted/odis/225171.json"];
                 v_t20s := [];
                 v_combined := [flattened odi_won_by_runs
                                  "data/extracted/odis/225171.json"] |}
              0 (flattened odi_won_by_runs "data/extracted/odis/225171.json")
              Hne eq_refl) as (row' & Hrow' & Hwin & _).
  rewrite Hrow'. cbn. f_equal. apply Hwin; [by exists "runs" | by left].
Defined.

(** ** Running the imputer again *)

Lemma city_subset_venue (U : Frame) (r1 r2 : MatchRecord) :
  venue r1 = venue r2 → city_subset U r1 = city_subset U r2.
Proof. intros H. unfold city_subset. by rewrite H. Qed.

Lemma event_subset_teams_teams (U : Frame) (r1 r2 : MatchRecord) :
  teams r1 = teams r2 → event_subset_teams U r1 = event_subset_teams U r2.
Proof. intros H. unfold event_subset_teams. by rewrite H. Qed.

(** The first event mask keeps no row that the second does not keep. *)
Lemma event_subset_city_nil (U : Frame) (row : MatchRecord) :
  event_subset_teams U row = [] → event_subset_city U row = [].
Proof.
  unfold event_subset_teams, event_subset_city.
  induction U as [|u U IH]; [done|]. cbn.
  destruct (notna (event_name u) && pd_ne (event_name u) (Some "")
            && bool_decide (sorted_teams (teams u) = sorted_teams (teams row)));
    [discriminate|]. cbn. exact IH.
Qed.

Lemma city_subset_head (U : Frame) (row u : MatchRecord) (rest : Frame) :
  city_subset U row = u :: rest → isna (city u) || is_empty_str (city u) = false.
Proof.
  intros H.
  assert (Hin : In u (city_subset U row)) by (rewrite H; by left).
  unfold city_subset in Hin. apply filter_In in Hin as [_ Hm].
  apply city_mask_spec in Hm as [_ (c & Hc & Hne)].
  apply not_true_iff_false. rewrite blank_spec, Hc.
  intros [? | [= ->]]; done.
Qed.

Lemma event_subset_head (U : Frame) (row u : MatchRecord) (rest : Frame) :
  event_subset_city U row = u :: rest ∨ event_subset_teams U row = u :: rest →
  isna (event_name u) || is_empty_str (event_name u) = false.
Proof.
  intros H.
  assert (Hn : named u).
  { destruct H as [H|H].
    - assert (Hin : In u (event_subset_city U row)) by (rewrite H; by left).
      unfold event_subset_city in Hin. apply filter_In in Hin as [_ Hm].
      by apply event_mask_spec in Hm as [Hn _].
    - assert (Hin : In u (event_subset_teams U row)) by (rewrite H; by left).
      unfold event_subset_teams in Hin. apply filter_In in Hin as [_ Hm].
      by apply teams_mask_spec in Hm as [Hn _]. }
  destruct Hn as (n & Hn & Hne).
  apply not_true_iff_false. rewrite blank_spec, Hn.
  intros [? | [= ->]]; done.
Qed.

(** A record that the rules have gone over is not changed by going over
    it again with the same universe. *)
Lemma impute_record_idempotent (U : Frame) (row : MatchRecord) :
  impute_record U (impute_record U row) = impute_record U row.
Proof.
  set (row1 := impute_record U row).
  assert (Hcells : row1 = set_city (city row1)
                            (set_outcome_result (outcome_result row1)
                               (set_event_name (event_name row1) row)))
    by apply impute_record_cells.
  assert (Hvenue : venue row1 = venue row) by (by rewrite Hcells).
  assert (Hteams : teams row1 = teams row) by (by rewrite Hcells).
  assert (Htype : outcome_type row1 = outcome_type row) by (by rewrite Hcells).
  assert (Hc : city_update U row1 row1 = row1).
  { assert (Hcity : city row1 = city (city_update U row row))
      by apply city_of_impute_record.
    unfold city_update in Hcity |- *.
    rewrite (city_subset_venue U row1 row Hvenue).
    destruct (isna (city row) || is_empty_str (city row)) eqn:Hb;
      rewrite ?Hb in Hcity.
    - destruct (city_subset U row) as [|u rest] eqn:Hs; cbn in Hcity; rewrite Hcity.
      + by rewrite Hb.
      + by rewrite (city_subset_head U row u rest Hs).
    - cbn in Hcity. by rewrite Hcity, Hb. }
  assert (Ho : outcome_update row1 row1 = row1).
  { assert (Hres : outcome_result row1 = outcome_result (outcome_update row row))
      by apply outcome_result_of_impute_record.
    unfold outcome_update in Hres |- *. rewrite Htype.
    destruct (notna (outcome_type row)
              && (isna (outcome_result row) || in_empty_or_none (outcome_result row)))
      eqn:Hb; rewrite ?Hb in Hres; cbn in Hres; rewrite Hres.
    - cbn. by rewrite andb_false_r.
    - by rewrite Hb. }
  assert (He : event_update U row1 row1 = row1).
  { assert (Hname : event_name row1 = event_name (event_update U row row))
      by apply event_name_of_impute_record.
    unfold event_update in Hname |- *.
    rewrite (event_subset_teams_teams U row1 row Hteams).
    destruct (isna (event_name row) || is_empty_str (event_name row)) eqn:Hb;
      rewrite ?Hb in Hname.
    - destruct (event_subset_city U row) as [|u rest] eqn:Hs1.
      + destruct (event_subset_teams U row) as [|u rest] eqn:Hs2;
          cbn in Hname; rewrite Hname.
        * rewrite Hb. rewrite (event_subset_city_nil U row1); [done|].
          by rewrite (event_subset_teams_teams U row1 row Hteams).
        * by rewrite (event_subset_head U row u rest (or_intror Hs2)).
      + cbn in Hname. rewrite Hname.
        by rewrite (event_subset_head U row u rest (or_introl Hs1)).
    - cbn in Hname. by rewrite Hname, Hb. }
  unfold impute_record at 1. by rewrite Hc, Ho, He.
Qed.

(** The imputer is idempotent: run a second time on the same target with
    the same universe, it changes nothing. *)
Theorem imputer_idempotent (df combined : ref) (e : Env) :
  df ≠ combined →
  impute_match_fields df combined (impute_match_fields df combined e)
  = impute_match_fields df combined e.
Proof.
  intros Hne. rewrite !impute_match_fields_rows by done.
  rewrite frame_of_set_frame_eq, frame_of_set_frame_ne, set_frame_set_frame by done.
  f_equal. rewrite map_map. apply map_ext. intros row.
  apply impute_record_idempotent.
Qed.

Lemma imputer_idempotent_witness :
  impute_match_fields DfOdis Combined (impute_match_fields DfOdis Combined asia_env)
  = impute_match_fields DfOdis Combined asia_env.
Proof.
  assert (Hne : DfOdis ≠ Combined) by discriminate.
  exact (imputer_idempotent DfOdis Combined asia_env Hne).
Defined.



(* ===================================================================== *)
(** * Further properties of the sequencer                                 *)
(* ===================================================================== *)

Lemma filter_partition {A} (p : A → bool) (l : list A) :
  (List.filter p l ++ List.filter (fun x => negb (p x)) l)%list ≡ₚ l.
Proof.
  induction l as [|x l IH]; cbn; [done|].
  destruct (p x); cbn.
  - by rewrite IH.
  - rewrite <- Permutation_middle. by rewrite IH.
Qed.

Lemma filter_key_other {A K} `{EqDecision K} (key : A → K) (k k' : K) (l : list A) :
  k' ≠ k →
  List.filter (fun x => bool_decide (key x = k'))
              (List.filter (fun x => negb (bool_decide (key x = k))) l)
  = List.filter (fun x => bool_decide (key x = k')) l.
Proof.
  intros Hne. induction l as [|x l IH]; cbn; [done|].
  destruct (decide (key x = k)) as [Hk|Hk].
  - rewrite (bool_decide_eq_true_2 _ Hk). cbn.
    rewrite bool_decide_eq_false_2 by congruence. exact IH.
  - rewrite (bool_decide_eq_false_2 _ Hk). cbn. by rewrite IH.
Qed.

(** Grouping by a key splits a list: the groups of pairwise distinct keys
    that cover the list hold every element once. *)
Lemma concat_groups_Permutation {A K} `{EqDecision K} (key : A → K)
    (ks : list K) (l : list A) :
  NoDup ks →
  (∀ x, x ∈ l → key x ∈ ks) →
  concat (map (fun k => List.filter (fun x => bool_decide (key x = k)) l) ks) ≡ₚ l.
Proof.
  intros Hnd. revert l. induction Hnd as [|k ks Hk Hnd IH]; intros l Hcover.
  - destruct l as [|x l]; [done|].
    specialize (Hcover x (list_elem_of_here _ _)). by apply elem_of_nil in Hcover.
  - cbn [map concat].
    etransitivity; [|apply (filter_partition (fun x => bool_decide (key x = k)) l)].
    apply Permutation_app_head.
    assert (Heq : map (fun k0 => List.filter (fun x => bool_decide (key x = k0)) l) ks
                  = map (fun k0 =>
                           List.filter (fun x => bool_decide (key x = k0))
                             (List.filter (fun x => negb (bool_decide (key x = k))) l))
                        ks).
    { apply map_ext_in. intros k' Hk'. symmetry. apply filter_key_other.
      intros ->. apply Hk. by apply list_elem_of_In. }
    rewrite Heq. apply IH.
    intros x Hx. apply list_elem_of_In, filter_In in Hx as [Hx Hnk].
    apply list_elem_of_In, Hcover, elem_of_cons in Hx as [Hx|Hx]; [|done].
    apply negb_true_iff, bool_decide_eq_false in Hnk. done.
Qed.

Lemma fmap_zip_with_rows {A B C D} (f : A → B → C) (g : C → D) (h : A → D)
    (l : list A) (k : list B) :
  (∀ x y, g (f x y) = h x) →
  (length l ≤ length k)%nat →
  g <$> zip_with f l k = h <$> l.
Proof.
  intros Hg. revert k. induction l as [|x l IH]; intros [|y k] Hlen; cbn in *;
    try done; try lia.
  rewrite Hg. f_equal. apply IH. lia.
Qed.

(** [fill_group] returns the sorted rows of the group, each with a new
    [event_match_number] cell. *)
Lemma fill_group_rows (parse : string → option Z) (group : IFrame) :
  (fun ir => (ir.1, set_event_match_number None ir.2)) <$> fill_group parse group
  = (fun ir => (ir.1, set_event_match_number None ir.2))
      <$> merge_sort by_match_id group.
Proof.
  unfold fill_group. apply fmap_zip_with_rows; [done|].
  change (map ?f ?l) with (f <$> l).
  by rewrite fill_column_assign, length_assign_range, length_fmap.
Qed.

Lemma fill_group_labels (parse : string → option Z) (group : IFrame) :
  (fill_group parse group).*1 ≡ₚ group.*1.
Proof.
  transitivity ((merge_sort by_match_id group).*1).
  - apply Permutation_refl'.
    pose proof (f_equal (fmap fst) (fill_group_rows parse group)) as H.
    by rewrite <- !list_fmap_compose in H.
  - by rewrite merge_sort_Permutation.
Qed.

Lemma filled_groups_labels (parse : string → option Z) (groups : list IFrame) :
  (concat (map (fill_group parse) groups)).*1 ≡ₚ (concat groups).*1.
Proof.
  induction groups as [|g groups IH]; cbn; [done|].
  by rewrite !fmap_app, fill_group_labels, IH.
Qed.

Lemma grouped_rows_from (base : nat) (df : Frame) :
  let rows := List.filter (fun ir : nat * MatchRecord =>
                             bool_decide (is_Some (group_key ir.2)))
                          (imap (fun i r => ((base + i)%nat, r)) df) in
  NoDup rows.*1 ∧ Forall (fun i => (base ≤ i)%nat) rows.*1.
Proof.
  revert base. induction df as [|r df IH]; intros base rows.
  - split; constructor.
  - unfold rows. rewrite imap_cons.
    rewrite (imap_ext (_ ∘ S) (fun i r => ((S base + i)%nat, r)))
      by (intros; cbn; f_equal; lia).
    destruct (IH (S base)) as [Hnd Hge]. cbn [List.filter].
    destruct (bool_decide _); cbn [fmap list_fmap fst].
    + split.
      * apply NoDup_cons. split; [|exact Hnd].
        intros Hin. rewrite Forall_forall in Hge. specialize (Hge _ Hin). cbn in Hge. lia.
      * constructor; [cbn; lia|]. eapply Forall_impl; [exact Hge|]. intros; cbn in *; lia.
    + split; [exact Hnd|]. eapply Forall_impl; [exact Hge|]. intros; cbn in *; lia.
Qed.

Lemma NoDup_grouped_rows (df : Frame) : NoDup (grouped_rows df).*1.
Proof. exact (proj1 (grouped_rows_from 0 df)). Qed.

(** The groups hold every row that has a key, once. *)
Lemma groups_of_Permutation (df : Frame) : concat (groups_of df) ≡ₚ grouped_rows df.
Proof.
  unfold groups_of.
  set (kept := grouped_rows df).
  set (keys := merge_sort key_le (remove_dups (omap (fun ir => group_key ir.2) kept))).
  rewrite <- (concat_groups_Permutation (fun ir : nat * MatchRecord => group_key ir.2)
                (Some <$> keys) kept).
  - apply Permutation_refl'. f_equal.
    change (?f <$> ?l) with (map f l). by rewrite map_map.
  - apply (NoDup_fmap_2 _). unfold keys.
    rewrite merge_sort_Permutation. apply NoDup_remove_dups.
  - intros ir Hir. apply elem_of_grouped_rows in Hir as [Hi [k Hk]].
    rewrite Hk. apply list_elem_of_fmap. exists k. split; [done|].
    unfold keys. rewrite merge_sort_Permutation, elem_of_remove_dups, list_elem_of_omap.
    exists ir. split; [|done]. apply elem_of_grouped_rows. split; [done | by exists k].
Qed.

Lemma fmap_omap_rows {A B C} (f : A → option B) (g : B → C) (h : A → C)
    (l : list A) :
  (∀ x, x ∈ l → ∃ y, f x = Some y ∧ g y = h x) →
  g <$> omap f l = h <$> l.
Proof.
  induction l as [|x l IH]; intros Hf; cbn; [done|].
  destruct (Hf x (list_elem_of_here _ _)) as (y & -> & <-). cbn. f_equal.
  apply IH. intros z Hz. apply Hf. by right.
Qed.

(** The labels of the rows that [fill_event_match_number] returns. *)
Lemma fill_event_match_number_labels (parse : string → option Z) (df : Frame) :
  (fill_event_match_number parse df).*1 ≡ₚ (grouped_rows df).*1.
Proof.
  assert (Hc : (concat (map (fill_group parse) (groups_of df))).*1
               ≡ₚ (grouped_rows df).*1).
  { by rewrite filled_groups_labels, groups_of_Permutation. }
  unfold fill_event_match_number. case_bool_decide; [|exact Hc].
  apply Permutation_refl'. apply fmap_omap_rows. intros ir Hir.
  assert (Hin : ir.1 ∈ (concat (map (fill_group parse) (groups_of df))).*1).
  { rewrite Hc. apply list_elem_of_fmap. by exists ir. }
  apply list_elem_of_fmap in Hin as (y & Hy1 & Hy).
  unfold row_at.
  destruct (find (fun ir0 : nat * MatchRecord => ir0.1 =? ir.1)%nat
                 (concat (map (fill_group parse) (groups_of df)))) as [z|] eqn:Hz.
  - exists z. split; [done|]. apply find_some in Hz as [_ Hz].
    by apply Nat.eqb_eq in Hz.
  - apply list_elem_of_In in Hy. pose proof (find_none _ _ Hz _ Hy) as Hf.
    cbn in Hf. rewrite <- Hy1, Nat.eqb_refl in Hf. discriminate.
Qed.

(** What [fill_event_match_number] returns: one row for every row of [df]
    whose [season] and [event_name] are both set, under the label of that
    row and equal to it but for [event_match_number]; no row for a row of
    [df] with a null in either column, and no row twice. *)
Theorem sequencer_rows (parse : string → option Z) (df : Frame) :
  let out := fill_event_match_number parse df in
  NoDup out.*1
  ∧ (∀ i, i ∈ out.*1 ↔
          ∃ r, df !! i = Some r ∧ is_Some (season r) ∧ is_Some (event_name r))
  ∧ (∀ i r', (i, r') ∈ out →
             ∃ r, df !! i = Some r
                  ∧ r' = set_event_match_number (event_match_number r') r)
  ∧ length out = length (grouped_rows df).
Proof.
  intros out.
  pose proof (fill_event_match_number_labels parse df) as Hperm. fold out in Hperm.
  split; [|split; [|split]].
  - rewrite Hperm. apply NoDup_grouped_rows.
  - intros i. rewrite Hperm, list_elem_of_fmap. split.
    + intros ([j r] & -> & Hin). apply elem_of_grouped_rows in Hin as [Hi Hk].
      exists r. split; [done|]. cbn in Hk. unfold group_key in Hk.
      destruct (season r), (event_name r); by destruct Hk as [? [=]].
    + intros (r & Hi & [s Hs] & [n Hn]). exists (i, r). split; [done|].
      apply elem_of_grouped_rows. split; [done|]. cbn. unfold group_key.
      rewrite Hs, Hn. by eexists.
  - intros i r' Hin.
    destruct (fill_event_match_number_rows parse df i r' Hin)
      as (r & n & Hi & _ & _ & ->).
    exists r. split; [done|]. reflexivity.
  - rewrite <- (length_fmap fst out), <- (length_fmap fst (grouped_rows df)).
    by apply Permutation_length.
Qed.

Lemma sequencer_rows_witness :
  length (fill_event_match_number parse_decimal
            (v_tests (imputed (process_files sample_files init)))) = 1%nat.
Proof.
  destruct (sequencer_rows parse_decimal
              (v_tests (imputed (process_files sample_files init))))
    as (_ & _ & _ & Hlen).
  rewrite Hlen. reflexivity.
Defined.




Lemma assign_range_all_null (next : Z) (col : list (option Z)) :
  Forall (eq None) col →
  assign_range next col
  = (fun k => Some (next + Z.of_nat k)) <$> seq 0 (length col).
Proof.
  revert next. induction col as [|c col IH]; intros next Hall; [done|].
  apply Forall_cons in Hall as [<- Hall]. cbn [assign_range length seq fmap list_fmap].
  f_equal; [f_equal; lia|]. rewrite IH by done.
  rewrite <- fmap_S_seq, <- list_fmap_compose. apply list_fmap_ext.
  intros j k _. cbn. f_equal. lia.
Qed.

(** A group in which no record has a numeric [event_match_number] is
    numbered 1, 2, ..., n in ascending [match_id] order; in particular the
    only record of a group of one receives 1. *)
Theorem unnumbered_group_from_one (parse : string → option Z) (group : IFrame) :
  Forall (fun ir => normalize parse (event_match_number ir.2) = None) group →
  numbers_of (fill_group parse group)
  = (fun k => Some (SInt (Z.of_nat k))) <$> seq 1 (length group).
Proof.
  intros Hall. rewrite numbers_of_fill_group.
  set (old := (fun ir => normalize parse (event_match_number ir.2))
                <$> merge_sort by_match_id group).
  assert (Hold : Forall (eq None) old).
  { unfold old. apply Forall_fmap. rewrite merge_sort_Permutation.
    eapply Forall_impl; [exact Hall|]. intros ir Hir. cbn. by rewrite Hir. }
  assert (Hstart : sequence_start old = 1).
  { apply sequence_start_first. intros z Hz.
    rewrite Forall_forall in Hold. by specialize (Hold _ Hz). }
  rewrite Hstart, assign_range_all_null by done.
  assert (Hlen : length old = length group).
  { unfold old. rewrite length_fmap. apply Permutation_length, merge_sort_Permutation. }
  rewrite Hlen, <- fmap_S_seq, <- !list_fmap_compose. apply list_fmap_ext.
  intros j k _. cbn. unfold as_int. cbn. do 2 f_equal. lia.
Qed.

Lemma unnumbered_group_from_one_witness :
  numbers_of (fill_group parse_decimal
                [ (0%nat, event_row "1187682" None);
                  (1%nat, event_row "1187681" (Some (SStr ""))) ])
  = [Some (SInt 1); Some (SInt 2)].
Proof.
  apply (unnumbered_group_from_one parse_decimal
           [ (0%nat, event_row "1187682" None);
             (1%nat, event_row "1187681" (Some (SStr ""))) ]).
  repeat constructor.
Defined.

(** ** Running the sequencer again *)

Lemma Sorted_by_match_id (l : IFrame) :
  Sorted by_match_id l ↔ Sorted String.le ((fun ir => match_id ir.2) <$> l).
Proof.
  induction l as [|x l IH]; [split; constructor|].
  split; intros H; apply Sorted_inv in H as [Hs Hh]; constructor.
  - by apply IH.
  - destruct l; [constructor|]. apply HdRel_inv in Hh. by constructor.
  - by apply IH.
  - destruct l; [constructor|]. apply HdRel_inv in Hh. by constructor.
Qed.

Lemma normalize_as_int (parse : string → option Z) (c : option Z) :
  normalize parse (as_int c) = c.
Proof. by destruct c. Qed.

Lemma zip_with_again {A B} (f : A → B → A) (l : list A) (k : list B) :
  (∀ x y, f (f x y) y = f x y) →
  zip_with f (zip_with f l k) k = zip_with f l k.
Proof.
  intros Hf. revert k. induction l as [|x l IH]; intros [|y k]; cbn; try done.
  by rewrite Hf, IH.
Qed.

Lemma normalize_filled (parse : string → option Z) (rows : IFrame)
    (col : list (option Z)) :
  length rows = length col →
  (fun ir => normalize parse (event_match_number ir.2))
    <$> zip_with (fun ir n => (ir.1, set_event_match_number (SInt <$> n) ir.2))
                 rows col
  = col.
Proof.
  revert col. induction rows as [|x l IH]; intros [|c col] Hlen; cbn in *;
    try done.
  f_equal; [apply normalize_as_int|]. apply IH. lia.
Qed.

Lemma assign_range_no_null (next : Z) (col : list (option Z)) :
  None ∉ assign_range next col.
Proof. rewrite elem_of_assign_range. by intros (z & ? & _). Qed.

(** The sequencer is idempotent on a group whose match ids are pairwise
    distinct: applied to its own result, [fill_group] returns it
    unchanged. *)
Theorem fill_group_idempotent (parse : string → option Z) (group : IFrame) :
  NoDup ((fun ir => match_id ir.2) <$> group) →
  fill_group parse (fill_group parse group) = fill_group parse group.
Proof.
  intros Hnd.
  set (sorted := merge_sort by_match_id group).
  set (old := (fun ir => normalize parse (event_match_number ir.2)) <$> sorted).
  set (col := assign_range (sequence_start old) old).
  set (F := fun (ir : nat * MatchRecord) (n : option Z) =>
              (ir.1, set_event_match_number (SInt <$> n) ir.2)).
  assert (Hout : fill_group parse group = zip_with F sorted col).
  { unfold fill_group. fold sorted. change (map ?f sorted) with (f <$> sorted).
    fold old. by rewrite fill_column_assign. }
  assert (Hlen : length sorted = length col).
  { unfold col, old. by rewrite length_assign_range, length_fmap. }
  assert (Hids : (fun ir => match_id ir.2) <$> zip_with F sorted col
                 = (fun ir => match_id ir.2) <$> sorted).
  { apply fmap_zip_with_rows; [done | lia]. }
  assert (Hsorted : merge_sort by_match_id (zip_with F sorted col)
                    = zip_with F sorted col).
  { symmetry. apply sort_values_unique; [|done|].
    - rewrite Hids. unfold sorted. by rewrite merge_sort_Permutation.
    - apply Sorted_by_match_id. rewrite Hids. apply Sorted_by_match_id.
      apply Sorted_merge_sort, _. }
  assert (Hcol : (fun ir => normalize parse (event_match_number ir.2))
                   <$> zip_with F sorted col = col).
  { by apply normalize_filled. }
  rewrite Hout. unfold fill_group at 1. rewrite Hsorted.
  change (map ?f ?l) with (f <$> l). rewrite Hcol, fill_column_assign.
  rewrite (assign_range_full _ col) by apply assign_range_no_null.
  apply zip_with_again. intros x y. reflexivity.
Qed.

Lemma fill_group_idempotent_witness :
  fill_group parse_decimal (fill_group parse_decimal scenario_group)
  = fill_group parse_decimal scenario_group.
Proof.
  apply (fill_group_idempotent parse_decimal scenario_group).
  refine (bool_decide_unpack _ _). vm_compute. exact I.
Defined.

(* ===================================================================== *)
(** * Further properties of the driver                                    *)
(* ===================================================================== *)



Lemma set_cells_commute (c o n : option string) (m : option scalar)
    (r : MatchRecord) :
  set_event_match_number m (set_city c (set_outcome_result o (set_event_name n r)))
  = set_city c (set_outcome_result o (set_event_name n (set_event_match_number m r))).
Proof. reflexivity. Qed.

(** From the flattened tables to the returned ones, [get_dataframes]
    invents no row and moves none to another tier: every row of a returned
    table is the row of the same table of [self] under the same label,
    changed in [city], [outcome_result], [event_name] and
    [event_match_number] at most; the deliveries table is returned as the
    flattener left it. *)
Theorem get_dataframes_rows (parse : string → option Z) (self : DataTransformer)
    (out : IFrame * IFrame * IFrame * list DeliveryRecord) :
  get_dataframes parse self = Some out →
  out.2 = deliveries self
  ∧ ∀ t i r', (i, r') ∈ final_table t out →
              ∃ r, table t self !! i = Some r ∧ same_but_filled_cells r r'.
Proof.
  unfold get_dataframes.
  destruct (imputed_tables self) as (Ht & Ho & Hw). rewrite Ht, Ho, Hw.
  destruct (_ && _); [|discriminate]. intros [= <-]. split; [reflexivity|].
  assert (Hrows : ∀ tbl i r',
            (i, r') ∈ fill_event_match_number parse
                        (impute_record (tests self ++ odis self ++ t20s self) <$> tbl) →
            ∃ r, tbl !! i = Some r ∧ same_but_filled_cells r r').
  { intros tbl i r' Hin.
    apply fill_event_match_number_rows in Hin as (r1 & n & Hi & _ & _ & ->).
    rewrite list_lookup_fmap in Hi.
    destruct (tbl !! i) as [r|]; [|discriminate]. injection Hi as <-.
    exists r. split; [done|]. unfold same_but_filled_cells.
    rewrite (impute_record_cells _ r) at 1. rewrite set_cells_commute.
    reflexivity. }
  intros [] i r' Hin; cbn in Hin; by apply Hrows.
Qed.

Lemma get_dataframes_rows_witness :
  ∃ out, get_dataframes parse_decimal (process_files sample_files init) = Some out
         ∧ out.2 = [].
Proof.
  eexists. split; [reflexivity|].
  exact (proj1 (get_dataframes_rows parse_decimal (process_files sample_files init)
                  _ eq_refl)).
Defined.
